(** * Energy consumption forecasting: loader and preprocessor

    A shallow embedding of [src/preprocessing.py] (class [DataPreprocessor]:
    [handle_missing_values], [remove_outliers], [aggregate_data],
    [preprocess_pipeline]) and of [load_processed_data] and
    [save_processed_data] of [src/data_loader.py] (class [DataLoader]), with
    the pandas, numpy and scipy operations they call.  [load_raw_data] and
    the constructors, which parse text files, are not part of it.

    Data model.  A pandas [DataFrame] is kept column-wise: a timestamp index
    and an ordered list of named columns.  A float64 entry is a [cell]: [None]
    is NaN (pandas' missing value), [Some q] a finite reading, carried as an
    exact rational, so rounding is not part of the model and computed values
    are compared with [Qeq].  Timestamps are nanoseconds since the epoch.
    Python exceptions are the [Raise] branch of [result]. *)

From Stdlib Require Import Reals Qreals.
From Stdlib Require Import String Ascii.
From Stdlib Require Import List ZArith QArith Bool Lia Arith Psatz.
From Stdlib Require Import Sorting.Sorted Permutation.
Import ListNotations.

Local Open Scope Z_scope.
Local Open Scope Q_scope.
Local Open Scope list_scope.

(** ** Exceptions and results *)

Inductive read_error : Type :=
| EmptyDataError
| ParserError
| IsADirectoryError.

Inductive exn : Type :=
| KeyError (key : string)
| ValueError
| ZeroDivisionError
| FileNotFoundError (msg : string)
| OSError
| ReadError (e : read_error).

Inductive result (A : Type) : Type :=
| Ok (a : A)
| Raise (e : exn).

Arguments Ok {A} a.
Arguments Raise {A} e.

Definition bind {A B : Type} (r : result A) (k : A -> result B) : result B :=
  match r with
  | Ok a => k a
  | Raise e => Raise e
  end.

Notation "x <- r ;; k" := (bind r (fun x => k))
  (at level 61, r at next level, right associativity).

(** ** Tables *)

Abbreviation cell := (option Q).

Definition notna (c : cell) : bool :=
  match c with Some _ => true | None => false end.

Record DataFrame : Type := mkDF {
  index : list Z;
  columns : list (string * list cell)
}.

Definition column_names (df : DataFrame) : list string := map fst (columns df).

(** [len(df)] *)
Definition len (df : DataFrame) : nat := length (index df).

(** Every column is as long as the index and no name occurs twice. *)
Definition wf (df : DataFrame) : Prop :=
  Forall (fun c => length (snd c) = length (index df)) (columns df) /\
  NoDup (column_names df).

Fixpoint lookup_col (name : string) (cols : list (string * list cell))
  : option (list cell) :=
  match cols with
  | [] => None
  | (n, v) :: rest => if String.eqb name n then Some v else lookup_col name rest
  end.

(** [df[col]] *)
Definition getitem (df : DataFrame) (col : string) : result (list cell) :=
  match lookup_col col (columns df) with
  | Some v => Ok v
  | None => Raise (KeyError col)
  end.

(** Boolean-mask selection on one sequence. *)
Fixpoint take_mask {A : Type} (mask : list bool) (l : list A) : list A :=
  match mask, l with
  | b :: mask', x :: l' =>
      if b then x :: take_mask mask' l' else take_mask mask' l'
  | _, _ => []
  end.

(** [df[mask]]: the rows whose mask entry is true, in order. *)
Definition select_rows (mask : list bool) (df : DataFrame) : DataFrame :=
  mkDF (take_mask mask (index df))
       (map (fun c => (fst c, take_mask mask (snd c))) (columns df)).

(** ** Configuration *)

(** [preprocessing.fill_method] after pandas' normalisation: ["ffill"]/["pad"],
    ["bfill"]/["backfill"]; any other value makes [fillna] raise. *)
Inductive fill_method_t : Type :=
| Pad
| Backfill
| Unsupported.

Record Config : Type := mkConfig {
  processed_path : string;
  fill_method : fill_method_t;
  outlier_threshold : Q;
  (** [preprocessing.aggregation_level] for a fixed-width frequency
      (["H"], ["T"], ["30min"], ["D"], ...): the bucket width in ns. *)
  aggregation_level : positive
}.

(** ** Column statistics *)

Definition Qltb (x y : Q) : bool := negb (Qle_bool y x).

Definition sumQ (l : list Q) : Q := fold_right Qplus 0 l.

Definition count (l : list Q) : Q := inject_Z (Z.of_nat (length l)).

Definition mean (l : list Q) : Q := sumQ l / count l.

(** Population variance ([ddof=0]). *)
Definition var (l : list Q) : Q :=
  let mn := mean l in mean (map (fun x => (x - mn) * (x - mn)) l).

(** The values of an array that holds no NaN. *)
Fixpoint all_present (a : list cell) : option (list Q) :=
  match a with
  | [] => Some []
  | None :: _ => None
  | Some x :: rest =>
      match all_present rest with
      | Some xs => Some (x :: xs)
      | None => None
      end
  end.

(** A z-score is [dev / sqrt variance] with [variance > 0], or NaN.  The
    quotient is irrational in general, so it is kept as the pair. *)
Inductive zval : Type :=
| ZNaN
| ZQuot (dev variance : Q).

(** The z-score of [x] against the population [xs]. *)
Definition zscore_of (xs : list Q) (x : Q) : zval :=
  if Qeq_bool (var xs) 0 then ZNaN else ZQuot (x - mean xs) (var xs).

(** [stats.zscore(a)] ([ddof=0], [nan_policy='propagate']): a NaN anywhere
    makes the mean, hence every score, NaN; a constant array gives 0/0. *)
Definition zscore (a : list cell) : list zval :=
  match all_present a with
  | None => map (fun _ => ZNaN) a
  | Some xs => map (zscore_of xs) xs
  end.

(** [np.abs(z) < t]; a comparison with NaN is false.  For [v > 0],
    [|d / sqrt v| < t] iff [0 < t] and [d * d < t * t * v]. *)
Definition zabs_lt (z : zval) (t : Q) : bool :=
  match z with
  | ZNaN => false
  | ZQuot d v => Qltb 0 t && Qltb (d * d) (t * t * v)
  end.

(** ** [DataPreprocessor.remove_outliers] *)

(** The loop [for col in columns: ...; df = df[z_scores < threshold]]. *)
Fixpoint outlier_loop (threshold : Q) (cols : list string) (df : DataFrame)
  : result DataFrame :=
  match cols with
  | [] => Ok df
  | col :: rest =>
      a <- getitem df col ;;
      let z_scores := zscore a in
      outlier_loop threshold rest
        (select_rows (map (fun z => zabs_lt z threshold) z_scores) df)
  end.

(** [columns], or by default [df.select_dtypes(include=[np.number]).columns]:
    all columns are numeric in this model. *)
Definition checked_columns (df : DataFrame) (cols : option (list string))
  : list string :=
  match cols with
  | None => column_names df
  | Some cs => cs
  end.

(** The report line computes [removed/original_len*100] after the loop, so a
    table without rows ends in [ZeroDivisionError]. *)
Definition remove_outliers (config : Config) (df : DataFrame)
  (cols : option (list string)) : result DataFrame :=
  let cols := checked_columns df cols in
  let threshold := outlier_threshold config in
  let original_len := len df in
  df' <- outlier_loop threshold cols df ;;
  if Nat.eqb original_len 0 then Raise ZeroDivisionError else Ok df'.

(** ** [DataPreprocessor.handle_missing_values] *)

Definition map_columns (f : list cell -> list cell) (df : DataFrame)
  : DataFrame :=
  mkDF (index df) (map (fun c => (fst c, f (snd c))) (columns df)).

(** Forward fill of one column with a limit: [val] is the last value seen,
    [fill_count] the number of entries filled since then.  Before the first
    value [val] is NaN, so leading gaps stay. *)
Fixpoint pad_limit (lim : nat) (val : cell) (fill_count : nat)
  (values : list cell) : list cell :=
  match values with
  | [] => []
  | Some v :: rest => Some v :: pad_limit lim (Some v) 0 rest
  | None :: rest =>
      if Nat.ltb fill_count lim
      then val :: pad_limit lim val (S fill_count) rest
      else None :: pad_limit lim val fill_count rest
  end.

Definition pad_1d (lim : nat) (values : list cell) : list cell :=
  pad_limit lim None 0 values.

(** Backward fill walks the column from its end. *)
Definition backfill_1d (lim : nat) (values : list cell) : list cell :=
  rev (pad_1d lim (rev values)).

(** [df.fillna(method=..., limit=...)], column by column. *)
Definition fillna (method : fill_method_t) (limit : nat) (df : DataFrame)
  : result DataFrame :=
  match method with
  | Pad => Ok (map_columns (pad_1d limit) df)
  | Backfill => Ok (map_columns (backfill_1d limit) df)
  | Unsupported => Raise ValueError
  end.

(** The first present entry of [l] and its offset. *)
Fixpoint next_valid (l : list cell) : option (nat * Q) :=
  match l with
  | [] => None
  | Some v :: _ => Some (0%nat, v)
  | None :: rest =>
      match next_valid rest with
      | Some (k, v) => Some (S k, v)
      | None => None
      end
  end.

Definition Qnat (n : nat) : Q := inject_Z (Z.of_nat n).

(** Linear interpolation over positions with [limit_direction='both']:
    [prev] is the last present entry behind the cursor as (distance, value).
    Between two present entries the value is [slope * (x - xp) + fp]; before
    the first and after the last one it is that entry's value; a column with
    no present entry is left as it is. *)
Fixpoint interp_linear (prev : option (nat * Q)) (l : list cell)
  : list cell :=
  match l with
  | [] => []
  | Some v :: rest => Some v :: interp_linear (Some (1%nat, v)) rest
  | None :: rest =>
      let filled :=
        match prev, next_valid rest with
        | Some (dp, a), Some (dn, b) =>
            Some ((b - a) / Qnat (dp + dn + 1) * Qnat dp + a)
        | Some (_, a), None => Some a
        | None, Some (_, b) => Some b
        | None, None => None
        end in
      filled ::
      interp_linear
        (match prev with Some (dp, a) => Some (S dp, a) | None => None end)
        rest
  end.

(** [df.interpolate(method='linear', limit_direction='both')] *)
Definition interpolate (df : DataFrame) : DataFrame :=
  map_columns (interp_linear None) df.

Definition row_notna (cols : list (string * list cell)) (i : nat) : bool :=
  forallb (fun c => match nth_error (snd c) i with
                    | Some (Some _) => true
                    | _ => false
                    end) cols.

Definition dropna_mask (df : DataFrame) : list bool :=
  map (row_notna (columns df)) (seq 0 (len df)).

(** [df.dropna()]: drop every row that holds a NaN. *)
Definition dropna (df : DataFrame) : DataFrame :=
  select_rows (dropna_mask df) df.

Definition handle_missing_values (config : Config) (df : DataFrame)
  : result DataFrame :=
  let fill_method := fill_method config in
  df <- fillna fill_method 6 df ;;
  let df := interpolate df in
  let df := dropna df in
  Ok df.

(** ** [DataPreprocessor.aggregate_data] *)

Definition day_nanos : Z := 86400000000000.

(** [Timestamp.normalize]: midnight of the same day. *)
Definition normalize (t : Z) : Z := (t - t mod day_nanos)%Z.

(** The edges of the bin range for a fixed-width frequency,
    [closed='left'], [origin='start_day']. *)
Definition range_edges (first last freq : Z) : Z * Z :=
  let origin := normalize first in
  let foffset := ((first - origin) mod freq)%Z in
  let loffset := ((last - origin) mod freq)%Z in
  let fresult := if (0 <? foffset)%Z then (first - foffset)%Z else first in
  let lresult := if (0 <? loffset)%Z then (last + (freq - loffset))%Z
                 else (last + freq)%Z in
  (fresult, lresult).

(** [date_range(start, end, freq)]: [start], [start + freq], ... up to [end]. *)
Definition date_range (start stop freq : Z) : list Z :=
  if (stop <? start)%Z then []
  else map (fun k => (start + Z.of_nat k * freq)%Z)
           (seq 0 (S (Z.to_nat ((stop - start) / freq)))).

(** [ax.min()], [ax.max()] of a non-empty index. *)
Definition index_min (t : Z) (ts : list Z) : Z := fold_right Z.min t ts.
Definition index_max (t : Z) (ts : list Z) : Z := fold_right Z.max t ts.

(** The bin edges of [df.resample(freq)]; an empty index has none. *)
Definition binner (freq : Z) (idx : list Z) : list Z :=
  match idx with
  | [] => []
  | t :: ts =>
      let (first, last) := range_edges (index_min t ts) (index_max t ts) freq in
      date_range first last freq
  end.

(** With [label='left'] a bin is labelled by its left edge. *)
Definition bin_labels (freq : Z) (idx : list Z) : list Z :=
  removelast (binner freq idx).

(** The grouper sorts the rows by timestamp, keeping the order of rows with
    equal timestamps. *)
Fixpoint insert_by_key {A : Type} (p : Z * A) (l : list (Z * A))
  : list (Z * A) :=
  match l with
  | [] => [p]
  | q :: l' =>
      if (fst q <? fst p)%Z then q :: insert_by_key p l' else p :: q :: l'
  end.

Fixpoint sort_by_key {A : Type} (l : list (Z * A)) : list (Z * A) :=
  match l with
  | [] => []
  | p :: l' => insert_by_key p (sort_by_key l')
  end.

(** The leading rows whose timestamp is below [r_bin], and the rest. *)
Fixpoint span_lt {A : Type} (r_bin : Z) (rows : list (Z * A))
  : list (Z * A) * list (Z * A) :=
  match rows with
  | [] => ([], [])
  | r :: rest =>
      if (fst r <? r_bin)%Z
      then let (g, tl) := span_lt r_bin rest in (r :: g, tl)
      else ([], rows)
  end.

(** One group per right edge, cut off the sorted rows in turn. *)
Fixpoint generate_bins {A : Type} (right_edges : list Z) (rows : list (Z * A))
  : list (list (Z * A)) :=
  match right_edges with
  | [] => []
  | r_bin :: edges =>
      let (g, rest) := span_lt r_bin rows in g :: generate_bins edges rest
  end.

(** The values of one column, bucket by bucket. *)
Definition resample_column (freq : Z) (idx : list Z) (a : list cell)
  : list (list cell) :=
  map (map snd)
      (generate_bins (tl (binner freq idx)) (sort_by_key (combine idx a))).

(** The present values of a group ([skipna]). *)
Fixpoint present (a : list cell) : list Q :=
  match a with
  | [] => []
  | Some x :: rest => x :: present rest
  | None :: rest => present rest
  end.

Inductive aggfunc : Type :=
| AggMean
| AggSum.

(** ['mean'] of a group with no present value is NaN. *)
Definition agg_mean (a : list cell) : cell :=
  match present a with
  | [] => None
  | xs => Some (mean xs)
  end.

(** ['sum'] of a group with no present value is 0. *)
Definition agg_sum (a : list cell) : cell := Some (sumQ (present a)).

Definition apply_agg (f : aggfunc) (a : list cell) : cell :=
  match f with
  | AggMean => agg_mean a
  | AggSum => agg_sum a
  end.

(** The dictionary passed to [agg], in its order. *)
Definition agg_spec : list (string * aggfunc) :=
  [ ("Global_active_power"%string, AggMean);
    ("Global_reactive_power"%string, AggMean);
    ("Voltage"%string, AggMean);
    ("Global_intensity"%string, AggMean);
    ("Sub_metering_1"%string, AggSum);
    ("Sub_metering_2"%string, AggSum);
    ("Sub_metering_3"%string, AggSum) ].

(** [df.resample(freq).agg(spec)]: one output column per entry of [spec]; a
    name that is not a column of [df] raises. *)
Fixpoint agg_columns (freq : Z) (spec : list (string * aggfunc))
  (df : DataFrame) : result (list (string * list cell)) :=
  match spec with
  | [] => Ok []
  | (name, f) :: spec' =>
      a <- getitem df name ;;
      cols <- agg_columns freq spec' df ;;
      Ok ((name, map (apply_agg f) (resample_column freq (index df) a)) :: cols)
  end.

Definition resample_agg (freq : Z) (spec : list (string * aggfunc))
  (df : DataFrame) : result DataFrame :=
  cols <- agg_columns freq spec df ;;
  Ok (mkDF (bin_labels freq (index df)) cols).

Definition aggregate_data (config : Config) (df : DataFrame)
  : result DataFrame :=
  let aggregation_level := Z.pos (aggregation_level config) in
  let df_agg := resample_agg aggregation_level agg_spec df in
  df_agg.

(** [DataPreprocessor.preprocess_pipeline] *)
Definition preprocess_pipeline (config : Config) (df : DataFrame)
  : result DataFrame :=
  df <- handle_missing_values config df ;;
  df <- aggregate_data config df ;;
  df <- remove_outliers config df None ;;
  Ok df.

(** ** [DataLoader.load_processed_data] *)

(** The file system as far as the loader looks at it: what a path names. *)
Inductive node : Type :=
| File (content : string)
| Directory.

Definition filesystem : Type := string -> option node.

(** [os.path.exists] *)
Definition path_exists (fs : filesystem) (path : string) : bool :=
  match fs path with
  | Some _ => true
  | None => false
  end.

Definition endswith_sep (a : string) : bool :=
  match rev (list_ascii_of_string a) with
  | c :: _ => Ascii.eqb c "/"%char
  | [] => false
  end.

(** [os.path.join(a, b)] (POSIX). *)
Definition path_join (a b : string) : string :=
  if String.prefix "/" b then b
  else if String.eqb a "" || endswith_sep a then (a ++ b)%string
  else (a ++ "/" ++ b)%string.

Section Loader.

(** [pd.read_csv(content, index_col=..., parse_dates=...)]: pandas' parser,
    which yields a table or fails on the content. *)
Variable read_csv : string -> nat -> bool -> read_error + DataFrame.

Definition load_processed_data (fs : filesystem) (config : Config)
  (filename : string) : result DataFrame :=
  let processed_path := path_join (processed_path config) filename in
  if negb (path_exists fs processed_path)
  then Raise (FileNotFoundError
                ("Processed data not found at " ++ processed_path)%string)
  else
    match fs processed_path with
    | Some (File content) =>
        match read_csv content 0%nat true with
        | inr df => Ok df
        | inl e => Raise (ReadError e)
        end
    | Some Directory => Raise (ReadError IsADirectoryError)
    | None => Raise OSError
    end.

End Loader.

(** ** [DataLoader.save_processed_data] *)

Section Saver.

(** [Path(p).mkdir(parents=True, exist_ok=True)], [df.to_csv] as the text it
    produces, and the writing of a text file: each is the library's or the
    operating system's, and may fail. *)
Variable mkdir_parents : filesystem -> string -> result filesystem.
Variable to_csv : DataFrame -> string.
Variable write_text : filesystem -> string -> string -> result filesystem.

Definition save_processed_data (fs : filesystem) (config : Config)
  (df : DataFrame) (filename : string) : result filesystem :=
  let processed_path := processed_path config in
  fs <- mkdir_parents fs processed_path ;;
  let filepath := path_join processed_path filename in
  write_text fs filepath (to_csv df).

End Saver.

(** * Specification vocabulary *)

(** [y] passes the test of threshold [t] against the population [pop]:
    it is present, the population holds no NaN, and [|z| < t]. *)
Definition within (t : Q) (pop : list cell) (y : cell) : Prop :=
  exists xs x,
    all_present pop = Some xs /\ y = Some x /\
    zabs_lt (zscore_of xs x) t = true.

(** The mask [np.abs(stats.zscore(a)) < t]. *)
Definition zmask (t : Q) (a : list cell) : list bool :=
  map (fun z => zabs_lt z t) (zscore a).

(** Every entry of the column is present and equal to [v]. *)
Definition constant_col (v : Q) (a : list cell) : Prop :=
  Forall (fun y => exists x, y = Some x /\ x == v) a.

(** A table without rows: the index and every column are empty. *)
Definition no_rows (df : DataFrame) : Prop :=
  index df = [] /\ Forall (fun c => snd c = []) (columns df).

(** No entry of any column is missing. *)
Definition no_missing (df : DataFrame) : Prop :=
  Forall (fun c => Forall (fun y => notna y = true) (snd c)) (columns df).

(** [y] is [x] unless [x] is missing. *)
Definition fills (x y : cell) : Prop := forall v, x = Some v -> y = Some v.

(** The last present entry behind the cursor, after one more entry. *)
Definition step_prev (prev : option (nat * Q)) (c : cell)
  : option (nat * Q) :=
  match c with
  | Some v => Some (1%nat, v)
  | None => match prev with Some (dp, a) => Some (S dp, a) | None => None end
  end.

(** The periods of width [w] from [b0] on: [b0], [b0 + w], ... *)
Definition periods (b0 w : Z) (s n : nat) : list Z :=
  map (fun k => (b0 + Z.of_nat k * w)%Z) (seq s n).

(** Rows in the order of their timestamps. *)
Definition key_le {A : Type} (p q : Z * A) : Prop := (fst p <= fst q)%Z.

(** Row [p] lies in the period that starts at [b]. *)
Definition in_bucket {A : Type} (b w : Z) (p : Z * A) : bool :=
  (b <=? fst p)%Z && (fst p <? b + w)%Z.

(** Equality of entries up to the value of the rational. *)
Definition cell_equiv (x y : cell) : Prop :=
  match x, y with
  | Some p, Some q => p == q
  | None, None => True
  | _, _ => False
  end.

(** The entries of column [a] whose row falls in the period starting at
    [b], in the order of the input rows. *)
Definition bucket_cells (b w : Z) (idx : list Z) (a : list cell)
  : list cell :=
  map snd (filter (in_bucket b w) (combine idx a)).

(** The mask that selects by [m1] and then, among the rows kept, by [m2]. *)
Fixpoint and_mask (m1 m2 : list bool) : list bool :=
  match m1 with
  | [] => []
  | false :: m1' => false :: and_mask m1' m2
  | true :: m1' =>
      match m2 with
      | [] => false :: and_mask m1' []
      | b :: m2' => b :: and_mask m1' m2'
      end
  end.


(** The column-wise fills of [fillna]: what the steps after them rely on. *)
Record fill_ok (f : list cell -> list cell) : Prop := {
  fill_fills : forall a, Forall2 fills a (f a);
  fill_present : forall a, Forall (fun y => notna y = true) a -> f a = a;
  fill_none : forall a, Forall (fun y => y = None) a -> f a = a
}.

(** Every column holds at least one value. *)
Definition every_column_has_value (df : DataFrame) : Prop :=
  Forall (fun c => exists v, In (Some v) (snd c)) (columns df).

(** The reading of an entry in a sum: a missing entry adds nothing. *)
Definition val_of (c : cell) : Q :=
  match c with
  | Some x => x
  | None => 0
  end.

(** The sum of the present entries of the rows of [l] in the period [b]. *)
Definition bucket_sum (b w : Z) (l : list (Z * cell)) : Q :=
  sumQ (present (map snd (filter (in_bucket b w) l))).

(** * Example tables *)

Definition hour : positive := 3600000000000.

Definition config_hourly : Config := mkConfig "data/processed" Pad 3 hour.

(** Eleven hourly rows; the last row is extreme in [Voltage], the third
    from last in [Global_intensity]. *)
Definition df_overlap : DataFrame :=
  mkDF (map (fun k => (Z.of_nat k * Z.pos hour)%Z) (seq 0 11))
       [ ("Voltage"%string,
          [Some 0; Some 0; Some 0; Some 0; Some 0; Some 0;
           Some 0; Some 0; Some 0; Some 1; Some 4]);
         ("Global_intensity"%string,
          [Some 0; Some 0; Some 0; Some 0; Some 0; Some 0;
           Some 0; Some 0; Some 4; Some 1; Some 0]) ].

Definition df_constant_voltage : DataFrame :=
  mkDF [0%Z; Z.pos hour; (2 * Z.pos hour)%Z]
       [ ("Voltage"%string, [Some 230; Some 230; Some 230]);
         ("Global_intensity"%string, [Some 1; Some 2; Some 3]) ].

(** 2007-01-01 00:00:00 and 00:01:00; the second row lacks two readings. *)
Definition df_gap : DataFrame :=
  mkDF [1167609600000000000%Z; 1167609660000000000%Z]
       [ ("Global_active_power"%string, [Some (7 # 2); None]);
         ("Global_reactive_power"%string, [Some (1 # 10); Some (1 # 10)]);
         ("Voltage"%string, [Some 230; Some (2301 # 10)]);
         ("Global_intensity"%string, [Some 15; None]);
         ("Sub_metering_1"%string, [Some 0; Some 0]);
         ("Sub_metering_2"%string, [Some 1; Some 1]);
         ("Sub_metering_3"%string, [Some 17; Some 17]) ].

Definition df_gap_filled : DataFrame :=
  mkDF [1167609600000000000%Z; 1167609660000000000%Z]
       [ ("Global_active_power"%string, [Some (7 # 2); Some (7 # 2)]);
         ("Global_reactive_power"%string, [Some (1 # 10); Some (1 # 10)]);
         ("Voltage"%string, [Some 230; Some (2301 # 10)]);
         ("Global_intensity"%string, [Some 15; Some 15]);
         ("Sub_metering_1"%string, [Some 0; Some 0]);
         ("Sub_metering_2"%string, [Some 1; Some 1]);
         ("Sub_metering_3"%string, [Some 17; Some 17]) ].

Definition minute : Z := 60000000000.

(** Sixty one-minute rows of the hour from 2007-01-01 00:00:00. *)
Definition df_one_hour : DataFrame :=
  mkDF (map (fun k => (1167609600000000000 + Z.of_nat k * minute)%Z)
            (seq 0 60))
       [ ("Global_active_power"%string, repeat (Some (7 # 2)) 60);
         ("Global_reactive_power"%string, repeat (Some (1 # 10)) 60);
         ("Voltage"%string, repeat (Some 230) 60);
         ("Global_intensity"%string, repeat (Some 15) 60);
         ("Sub_metering_1"%string, repeat (Some 1) 60);
         ("Sub_metering_2"%string, repeat (Some 1) 60);
         ("Sub_metering_3"%string, repeat (Some 1) 60) ].

(** Three hourly rows; one voltage reading is missing. *)
Definition df_voltage_nan : DataFrame :=
  mkDF [0%Z; Z.pos hour; (2 * Z.pos hour)%Z]
       [ ("Voltage"%string, [Some 230; None; Some 231]);
         ("Global_intensity"%string, [Some 1; Some 2; Some 3]) ].

Definition config_threshold_zero : Config :=
  mkConfig "data/processed" Pad 0 hour.

(** Three rows; the voltage column holds no reading at all. *)
Definition df_no_voltage : DataFrame :=
  mkDF [0%Z; 60000000000%Z; 120000000000%Z]
       [ ("Voltage"%string, [None; None; None]);
         ("Global_intensity"%string, [Some 1; None; Some 3]) ].

(** Two rows, at 00:00 and at 02:00 of 2007-01-01: the hour from 01:00
    holds no row. *)
Definition df_hour_gap : DataFrame :=
  mkDF [1167609600000000000%Z; 1167616800000000000%Z]
       [ ("Global_active_power"%string, [Some (7 # 2); Some (5 # 2)]);
         ("Global_reactive_power"%string, [Some (1 # 10); Some (2 # 10)]);
         ("Voltage"%string, [Some 230; Some 231]);
         ("Global_intensity"%string, [Some 15; Some 11]);
         ("Sub_metering_1"%string, [Some 0; Some 2]);
         ("Sub_metering_2"%string, [Some 1; Some 1]);
         ("Sub_metering_3"%string, [Some 17; Some 18]) ].

(** [df_hour_gap] by the hour. *)
Definition df_hour_gap_hourly : DataFrame :=
  mkDF [1167609600000000000%Z; 1167613200000000000%Z; 1167616800000000000%Z]
       [ ("Global_active_power"%string, [Some (7 # 2); None; Some (5 # 2)]);
         ("Global_reactive_power"%string,
          [Some (1 # 10); None; Some (2 # 10)]);
         ("Voltage"%string, [Some 230; None; Some 231]);
         ("Global_intensity"%string, [Some 15; None; Some 11]);
         ("Sub_metering_1"%string, [Some 0; Some 0; Some 2]);
         ("Sub_metering_2"%string, [Some 1; Some 0; Some 1]);
         ("Sub_metering_3"%string, [Some 17; Some 0; Some 18]) ].

(** The two rows of [df_gap] without any reading of reactive power. *)
Definition df_no_reactive : DataFrame :=
  mkDF [1167609600000000000%Z; 1167609660000000000%Z]
       [ ("Global_active_power"%string, [Some (7 # 2); None]);
         ("Global_reactive_power"%string, [None; None]);
         ("Voltage"%string, [Some 230; Some (2301 # 10)]);
         ("Global_intensity"%string, [Some 15; None]);
         ("Sub_metering_1"%string, [Some 0; Some 0]);
         ("Sub_metering_2"%string, [Some 1; Some 1]);
         ("Sub_metering_3"%string, [Some 17; Some 17]) ].

(** A file system on which every directory can be made and every file
    written. *)
Definition mkdir_always (fs : filesystem) (path : string)
  : result filesystem :=
  Ok (fun q => if String.eqb q path then Some Directory else fs q).

Definition write_always (fs : filesystem) (path content : string)
  : result filesystem :=
  Ok (fun q => if String.eqb q path then Some (File content) else fs q).

Definition no_files : filesystem := fun _ => None.

(** * Properties *)

(** ** Results *)

Lemma bind_Ok {A B : Type} (r : result A) (k : A -> result B) (b : B) :
  bind r k = Ok b -> exists a, r = Ok a /\ k a = Ok b.
Proof.
  destruct r as [a|e]; simpl; intros H; [eauto | discriminate].
Qed.

(** ** Masks and column lookup *)

Lemma take_mask_nil {A : Type} (mask : list bool) :
  take_mask mask (@nil A) = [].
Proof. destruct mask as [|[] ?]; reflexivity. Qed.

Lemma take_mask_Forall {A : Type} (P : A -> Prop) (mask : list bool) :
  forall l, Forall P l -> Forall P (take_mask mask l).
Proof.
  induction mask as [|b mask IH]; intros l Hl; simpl; [constructor|].
  destruct l as [|x l]; [constructor|].
  inversion Hl; subst. destruct b; auto.
Qed.

Lemma take_mask_all_false {A B : Type} (a : list B) :
  forall l : list A, take_mask (map (fun _ => false) a) l = [].
Proof.
  induction a as [|y a IH]; intros [|x l]; simpl; auto.
Qed.

Lemma take_mask_map_filter {A B : Type} (f : A -> bool) (g : A -> B) :
  forall l, take_mask (map f l) (map g l) = map g (filter f l).
Proof.
  induction l as [|x l IH]; simpl; [reflexivity|].
  destruct (f x); simpl; now rewrite IH.
Qed.

Lemma column_names_select (mask : list bool) (df : DataFrame) :
  column_names (select_rows mask df) = column_names df.
Proof.
  unfold column_names, select_rows; simpl.
  rewrite map_map; reflexivity.
Qed.

Lemma lookup_col_map (f : list cell -> list cell) (c : string) :
  forall cols,
    lookup_col c (map (fun x => (fst x, f (snd x))) cols)
    = option_map f (lookup_col c cols).
Proof.
  induction cols as [|[n v] cols IH]; simpl; [reflexivity|].
  destruct (String.eqb c n); auto.
Qed.

Lemma lookup_col_select (mask : list bool) (c : string) (df : DataFrame) :
  lookup_col c (columns (select_rows mask df))
  = option_map (take_mask mask) (lookup_col c (columns df)).
Proof. apply lookup_col_map. Qed.

Lemma lookup_col_In (c : string) :
  forall cols, In c (map fst cols) -> exists a, lookup_col c cols = Some a.
Proof.
  induction cols as [|[n v] cols IH]; simpl; [tauto|].
  intros [->|Hin].
  - rewrite String.eqb_refl; eauto.
  - destruct (String.eqb c n); eauto.
Qed.

Lemma lookup_col_Some_In (c : string) (a : list cell) :
  forall cols, lookup_col c cols = Some a -> In (c, a) cols.
Proof.
  induction cols as [|[n v] cols IH]; simpl; [discriminate|].
  destruct (String.eqb c n) eqn:E.
  - apply String.eqb_eq in E; subst. intros [= ->]; auto.
  - auto.
Qed.

(** ** Z-scores *)

Lemma all_present_map (a : list cell) :
  forall xs, all_present a = Some xs -> a = map Some xs.
Proof.
  induction a as [|[x|] a IH]; simpl; intros xs H.
  - injection H as <-; reflexivity.
  - destruct (all_present a); [|discriminate].
    injection H as <-; simpl; f_equal; auto.
  - discriminate.
Qed.

Lemma zmask_keeps_within (t : Q) (a : list cell) :
  Forall (within t a) (take_mask (zmask t a) a).
Proof.
  unfold zmask, zscore.
  destruct (all_present a) as [xs|] eqn:E.
  - pose proof (all_present_map _ _ E) as Ha.
    rewrite map_map.
    rewrite Ha at 2.
    rewrite take_mask_map_filter.
    apply Forall_forall; intros y Hy.
    apply in_map_iff in Hy as (x & <- & Hx).
    apply filter_In in Hx as [_ Hx].
    exists xs, x; auto.
  - rewrite map_map, take_mask_all_false; constructor.
Qed.

Lemma outlier_loop_cons (t : Q) (c : string) (rest : list string)
  (df : DataFrame) :
  outlier_loop t (c :: rest) df
  = (a <- getitem df c ;; outlier_loop t rest (select_rows (zmask t a) df)).
Proof. reflexivity. Qed.

Lemma outlier_loop_app (t : Q) (pre post : list string) :
  forall df,
    outlier_loop t (pre ++ post) df
    = (mid <- outlier_loop t pre df ;; outlier_loop t post mid).
Proof.
  induction pre as [|c pre IH]; intros df; simpl; [reflexivity|].
  destruct (getitem df c) as [a|e]; simpl; auto.
Qed.

(** Filtering only removes entries of a column. *)
Lemma outlier_loop_col (P : cell -> Prop) (t : Q) (c : string) :
  forall cols df out a,
    outlier_loop t cols df = Ok out ->
    lookup_col c (columns df) = Some a ->
    Forall P a ->
    exists b, lookup_col c (columns out) = Some b /\ Forall P b.
Proof.
  induction cols as [|c0 cols IH]; intros df out a Hrun Hc HP; simpl in Hrun.
  - injection Hrun as <-; eauto.
  - apply bind_Ok in Hrun as (a0 & _ & Hrun).
    eapply IH; [exact Hrun | | ].
    + rewrite lookup_col_select, Hc; reflexivity.
    + now apply take_mask_Forall.
Qed.

Lemma getitem_Ok (df : DataFrame) (c : string) (a : list cell) :
  getitem df c = Ok a <-> lookup_col c (columns df) = Some a.
Proof.
  unfold getitem; destruct (lookup_col c (columns df)); split; congruence.
Qed.

Lemma remove_outliers_Ok (config : Config) (df out : DataFrame)
  (cols : option (list string)) :
  remove_outliers config df cols = Ok out <->
  outlier_loop (outlier_threshold config) (checked_columns df cols) df = Ok out
  /\ len df <> 0%nat.
Proof.
  unfold remove_outliers.
  destruct (outlier_loop _ _ df) as [df'|e]; simpl.
  - destruct (Nat.eqb (len df) 0) eqn:E.
    + apply Nat.eqb_eq in E. split; [discriminate | tauto].
    + apply Nat.eqb_neq in E. split; [intros [= ->]; auto | tauto].
  - split; [discriminate | intros [? _]; discriminate].
Qed.

(** ** Constant columns *)

Lemma count_cons (x : Q) (xs : list Q) : count (x :: xs) == count xs + 1.
Proof.
  unfold count. cbn [length]. rewrite Nat2Z.inj_succ, <- Z.add_1_r.
  rewrite inject_Z_plus. reflexivity.
Qed.

Lemma count_nonneg (xs : list Q) : 0 <= count xs.
Proof.
  unfold count. change 0 with (inject_Z 0). rewrite <- Zle_Qle. lia.
Qed.

Lemma sumQ_const (v : Q) (xs : list Q) :
  Forall (fun x => x == v) xs -> sumQ xs == v * count xs.
Proof.
  induction 1 as [|x xs Hx _ IH].
  - unfold count; simpl. ring.
  - cbn [sumQ fold_right]. fold (sumQ xs). cbv beta in Hx.
    rewrite count_cons, IH, Hx. ring.
Qed.

Lemma mean_const (v x0 : Q) (xs : list Q) :
  Forall (fun x => x == v) (x0 :: xs) -> mean (x0 :: xs) == v.
Proof.
  intros H. unfold mean. rewrite (sumQ_const v _ H).
  pose proof (count_nonneg xs) as Hc.
  rewrite count_cons. field. lra.
Qed.

Lemma var_const (v : Q) (xs : list Q) :
  Forall (fun x => x == v) xs -> var xs == 0.
Proof.
  intros H. destruct xs as [|x0 xs]; [reflexivity|].
  unfold var. pose proof (mean_const v x0 xs H) as Hm.
  set (mn := mean (x0 :: xs)) in *.
  assert (Forall (fun y => y == 0)
            (map (fun x => (x - mn) * (x - mn)) (x0 :: xs))) as H0.
  { apply Forall_map. eapply Forall_impl; [|exact H].
    simpl; intros a Ha. rewrite Ha, Hm. ring. }
  remember (map (fun x => (x - mn) * (x - mn)) (x0 :: xs)) as ds eqn:Eds.
  destruct ds as [|d ds]; [discriminate|].
  apply (mean_const 0 d ds H0).
Qed.

Lemma constant_col_present (v : Q) (a : list cell) :
  constant_col v a ->
  exists xs, all_present a = Some xs /\ Forall (fun x => x == v) xs.
Proof.
  induction 1 as [|y a (x & -> & Hx) _ (xs & E & Hxs)]; simpl.
  - exists []; auto.
  - rewrite E. exists (x :: xs); auto.
Qed.

(** On a constant column every score is NaN, so the mask keeps nothing. *)
Lemma zmask_constant (t v : Q) (a : list cell) :
  constant_col v a -> zmask t a = map (fun _ => false) a.
Proof.
  intros H. destruct (constant_col_present v a H) as (xs & E & Hxs).
  unfold zmask, zscore. rewrite E, map_map.
  rewrite (all_present_map a xs E), map_map.
  apply map_ext; intros x. unfold zscore_of.
  assert (Qeq_bool (var xs) 0 = true) as ->; [|reflexivity].
  apply Qeq_bool_iff. now apply var_const with (v := v).
Qed.

Lemma select_all_false_no_rows {B : Type} (a : list B) (df : DataFrame) :
  no_rows (select_rows (map (fun _ => false) a) df).
Proof.
  split; simpl.
  - apply take_mask_all_false.
  - apply Forall_map, Forall_forall; intros c _; simpl.
    apply take_mask_all_false.
Qed.

Lemma select_no_rows (mask : list bool) (df : DataFrame) :
  no_rows df -> no_rows (select_rows mask df).
Proof.
  intros [Hi Hc]; split; simpl.
  - rewrite Hi; apply take_mask_nil.
  - apply Forall_map. eapply Forall_impl; [|exact Hc].
    simpl; intros c ->; apply take_mask_nil.
Qed.

Lemma outlier_loop_no_rows (t : Q) :
  forall cols df,
    (forall c, In c cols -> In c (column_names df)) ->
    no_rows df ->
    exists out, outlier_loop t cols df = Ok out /\ no_rows out /\
                column_names out = column_names df.
Proof.
  induction cols as [|c cols IH]; intros df Hin Hdf; simpl.
  - eauto.
  - destruct (lookup_col_In c (columns df)) as (a & Ha);
      [apply Hin; now left|].
    unfold getitem; rewrite Ha; simpl.
    destruct (IH (select_rows (map (fun z => zabs_lt z t) (zscore a)) df))
      as (out & Hout & Hno & Hnames).
    + intros c' Hc'. rewrite column_names_select. apply Hin; now right.
    + now apply select_no_rows.
    + exists out. rewrite Hnames, column_names_select. auto.
Qed.

Lemma outlier_loop_constant (t v : Q) (c : string) :
  forall cols df a,
    (forall c', In c' cols -> In c' (column_names df)) ->
    In c cols ->
    lookup_col c (columns df) = Some a ->
    constant_col v a ->
    exists out, outlier_loop t cols df = Ok out /\ no_rows out /\
                column_names out = column_names df.
Proof.
  induction cols as [|c0 cols IH]; intros df a Hin Hc Ha Hconst;
    [destruct Hc|].
  rewrite outlier_loop_cons.
  destruct (lookup_col_In c0 (columns df)) as (a0 & Ha0);
    [apply Hin; now left|].
  unfold getitem; rewrite Ha0; simpl.
  assert (forall c', In c' cols ->
            In c' (column_names (select_rows (zmask t a0) df))) as Hin'.
  { intros c' Hc'. rewrite column_names_select. apply Hin; now right. }
  destruct (String.eqb c0 c) eqn:E.
  - apply String.eqb_eq in E; subst c0.
    assert (a0 = a) as -> by congruence.
    rewrite (zmask_constant t v a Hconst) in *.
    destruct (outlier_loop_no_rows t cols _ Hin'
                (select_all_false_no_rows a df)) as (out & H1 & H2 & H3).
    exists out. rewrite H3, column_names_select. auto.
  - apply String.eqb_neq in E.
    destruct Hc as [Hc|Hc]; [congruence|].
    destruct (IH (select_rows (zmask t a0) df) (take_mask (zmask t a0) a))
      as (out & H1 & H2 & H3); auto.
    + rewrite lookup_col_select, Ha; reflexivity.
    + now apply take_mask_Forall.
    + exists out. rewrite H3, column_names_select. auto.
Qed.

(** ** Outlier removal *)

(** C1 as stated fails: with threshold 3 and the columns checked in the order
    [Voltage], [Global_intensity], the last row goes on [Voltage]; the
    returned table keeps the reading 4 of [Global_intensity], whose z-score
    over the ten rows left is below 3 (squared: 245/29) and over the input
    column above 3 (squared: 169/18). *)
Lemma remove_outliers_not_within_input_population :
  exists out a b,
    remove_outliers config_hourly df_overlap
      (Some ["Voltage"; "Global_intensity"]%string) = Ok out /\
    getitem df_overlap "Global_intensity" = Ok a /\
    getitem out "Global_intensity" = Ok b /\
    In (Some 4) b /\
    ~ within (outlier_threshold config_hourly) a (Some 4).
Proof.
  eexists _, _, _.
  split; [vm_compute; reflexivity|].
  split; [vm_compute; reflexivity|].
  split; [vm_compute; reflexivity|].
  split; [do 8 right; left; reflexivity|].
  intros (xs & x & Hxs & Hx & Hz).
  injection Hx as <-. vm_compute in Hxs. injection Hxs as <-.
  vm_compute in Hz. discriminate.
Qed.

(** C1 (amended): every value that [remove_outliers] returns in a checked
    column has |z-score| < threshold, the z-score being computed over that
    column in the table as it stands when the column is checked, that is
    after the filters of the columns checked before it; for the first checked
    column this is the table passed in. *)
Theorem remove_outliers_within_population_when_checked :
  forall config df cols pre c post out,
    checked_columns df cols = pre ++ c :: post ->
    remove_outliers config df cols = Ok out ->
    exists mid pop b,
      remove_outliers config df (Some pre) = Ok mid /\
      (pre = [] -> mid = df) /\
      getitem mid c = Ok pop /\
      getitem out c = Ok b /\
      Forall (within (outlier_threshold config) pop) b.
Proof.
  intros config df cols pre c post out Hcols Hrun.
  apply remove_outliers_Ok in Hrun as [Hrun Hlen].
  rewrite Hcols, outlier_loop_app in Hrun.
  apply bind_Ok in Hrun as (mid & Hmid & Hrun).
  rewrite outlier_loop_cons in Hrun.
  apply bind_Ok in Hrun as (pop & Hpop & Hrun).
  destruct (outlier_loop_col (within (outlier_threshold config) pop)
              _ c _ _ _ (take_mask (zmask (outlier_threshold config) pop) pop)
              Hrun) as (b & Hb & HP).
  - rewrite lookup_col_select. apply getitem_Ok in Hpop. now rewrite Hpop.
  - apply zmask_keeps_within.
  - exists mid, pop, b. repeat split; auto.
    + apply remove_outliers_Ok; auto.
    + intros ->. simpl in Hmid. congruence.
    + now apply getitem_Ok.
Qed.

Lemma remove_outliers_within_population_when_checked_witness :
  exists mid pop b,
    remove_outliers config_hourly df_overlap (Some ["Voltage"%string]) = Ok mid /\
    (["Voltage"%string] = [] -> mid = df_overlap) /\
    getitem mid "Global_intensity" = Ok pop /\
    getitem
      (select_rows
         [true; true; true; true; true; true; true; true; true; true; false]
         df_overlap) "Global_intensity" = Ok b /\
    Forall (within (outlier_threshold config_hourly) pop) b.
Proof.
  apply (remove_outliers_within_population_when_checked
           config_hourly df_overlap None
           ["Voltage"%string] "Global_intensity"%string []).
  - reflexivity.
  - vm_compute. reflexivity.
Defined.

(** C5: the filter is sequential.  The mask of a column is computed on the
    table left by the columns before it, and there are a table and a
    threshold for which the two orders of two columns keep different rows. *)
Theorem remove_outliers_sequential_order_dependent :
  (forall t c rest df,
      outlier_loop t (c :: rest) df
      = (a <- getitem df c ;;
         outlier_loop t rest (select_rows (zmask t a) df))) /\
  (forall config df c1 c2 out,
      remove_outliers config df (Some [c1; c2]) = Ok out <->
      exists a1 a2,
        len df <> 0%nat /\
        getitem df c1 = Ok a1 /\
        getitem (select_rows (zmask (outlier_threshold config) a1) df) c2
          = Ok a2 /\
        out = select_rows (zmask (outlier_threshold config) a2)
                (select_rows (zmask (outlier_threshold config) a1) df)) /\
  (exists config df c1 c2 out12 out21,
      wf df /\
      remove_outliers config df (Some [c1; c2]) = Ok out12 /\
      remove_outliers config df (Some [c2; c1]) = Ok out21 /\
      index out12 <> index out21).
Proof.
  split; [|split].
  - intros; apply outlier_loop_cons.
  - intros config df c1 c2 out. rewrite remove_outliers_Ok.
    cbn [checked_columns]. rewrite outlier_loop_cons. split.
    + intros [Hrun Hlen].
      apply bind_Ok in Hrun as (a1 & Ha1 & Hrun).
      rewrite outlier_loop_cons in Hrun.
      apply bind_Ok in Hrun as (a2 & Ha2 & Hrun).
      simpl in Hrun. injection Hrun as <-. eauto 6.
    + intros (a1 & a2 & Hlen & Ha1 & Ha2 & ->).
      split; [|assumption].
      rewrite Ha1. cbn [bind]. rewrite outlier_loop_cons, Ha2. reflexivity.
  - exists config_hourly, df_overlap,
      "Voltage"%string, "Global_intensity"%string.
    eexists _, _.
    split; [split|].
    + repeat constructor.
    + repeat constructor; simpl; intuition discriminate.
    + split; [vm_compute; reflexivity|].
      split; [vm_compute; reflexivity|].
      vm_compute. discriminate.
Qed.

(** C6: when a checked column of a table with at least one row is constant,
    [remove_outliers] returns the table with no rows left, whatever the other
    columns hold.  (All checked columns are columns of the table.) *)
Theorem remove_outliers_constant_column_empty :
  forall config df cols c a v,
    len df <> 0%nat ->
    (forall c', In c' (checked_columns df cols) -> In c' (column_names df)) ->
    In c (checked_columns df cols) ->
    getitem df c = Ok a ->
    constant_col v a ->
    exists out,
      remove_outliers config df cols = Ok out /\
      no_rows out /\
      column_names out = column_names df.
Proof.
  intros config df cols c a v Hlen Hin Hc Ha Hconst.
  apply getitem_Ok in Ha.
  destruct (outlier_loop_constant (outlier_threshold config) v c
              (checked_columns df cols) df a Hin Hc Ha Hconst)
    as (out & Hrun & Hno & Hnames).
  exists out. split; [|auto].
  apply remove_outliers_Ok; auto.
Qed.

Lemma remove_outliers_constant_column_empty_witness :
  exists out,
    remove_outliers config_hourly df_constant_voltage None = Ok out /\
    no_rows out /\
    column_names out = column_names df_constant_voltage.
Proof.
  apply (remove_outliers_constant_column_empty
           config_hourly df_constant_voltage None "Voltage"%string
           [Some 230; Some 230; Some 230] 230).
  - discriminate.
  - intros c' H; exact H.
  - left; reflexivity.
  - reflexivity.
  - repeat constructor; eexists; split; reflexivity.
Defined.

(** ** Missing values *)

Lemma take_mask_seq_Forall {A : Type} (P : A -> Prop) (f : nat -> bool) :
  forall n s (l : list A),
    (forall i x, f (s + i)%nat = true -> nth_error l i = Some x -> P x) ->
    Forall P (take_mask (map f (seq s n)) l).
Proof.
  induction n as [|n IH]; intros s l H; simpl; [constructor|].
  destruct l as [|x l]; [constructor|].
  assert (Forall P (take_mask (map f (seq (S s) n)) l)) as Hrest.
  { apply IH. intros i y Hf Hy. apply (H (S i) y); [|exact Hy].
    now rewrite Nat.add_succ_r. }
  destruct (f s) eqn:E; [constructor|]; auto.
  apply (H 0%nat x); [now rewrite Nat.add_0_r | reflexivity].
Qed.

Lemma dropna_no_missing (df : DataFrame) : no_missing (dropna df).
Proof.
  unfold no_missing, dropna, select_rows; simpl.
  apply Forall_map, Forall_forall; intros c Hc; simpl.
  apply take_mask_seq_Forall. simpl. intros i x Hrow Hx.
  unfold row_notna in Hrow. rewrite forallb_forall in Hrow.
  specialize (Hrow c Hc). rewrite Hx in Hrow.
  destruct x; [reflexivity | discriminate].
Qed.

(** C2: the table returned by [handle_missing_values] holds no missing
    value; the call returns unless the configured fill method is not one
    [fillna] accepts. *)
Theorem handle_missing_values_no_missing :
  forall config df,
    match handle_missing_values config df with
    | Ok out => no_missing out
    | Raise _ => fill_method config = Unsupported
    end.
Proof.
  intros config df. unfold handle_missing_values, fillna.
  destruct (fill_method config); simpl;
    [apply dropna_no_missing | apply dropna_no_missing | reflexivity].
Qed.

(** ** Filling keeps what is present *)

Lemma fills_refl (x : cell) : fills x x.
Proof. intros v H; exact H. Qed.

Lemma Forall2_fills_trans (l1 l2 l3 : list cell) :
  Forall2 fills l1 l2 -> Forall2 fills l2 l3 -> Forall2 fills l1 l3.
Proof.
  intros H12; revert l3.
  induction H12 as [|x y l1 l2 Hxy _ IH]; intros l3 H23;
    inversion H23; subst; constructor; auto.
  intros v Hv. auto.
Qed.

Lemma Forall2_rev_fills (l l' : list cell) :
  Forall2 fills l l' -> Forall2 fills (rev l) (rev l').
Proof.
  induction 1 as [|x y l l' Hxy _ IH]; simpl; [constructor|].
  apply Forall2_app; [exact IH | repeat constructor; exact Hxy].
Qed.

Lemma pad_limit_fills (lim : nat) :
  forall values val k, Forall2 fills values (pad_limit lim val k values).
Proof.
  induction values as [|[v|] values IH]; intros val k; simpl.
  - constructor.
  - constructor; [apply fills_refl | apply IH].
  - destruct (Nat.ltb k lim); (constructor; [discriminate | apply IH]).
Qed.

Lemma backfill_fills (lim : nat) (values : list cell) :
  Forall2 fills values (backfill_1d lim values).
Proof.
  unfold backfill_1d, pad_1d.
  rewrite <- (rev_involutive values) at 1.
  apply Forall2_rev_fills, pad_limit_fills.
Qed.

Lemma interp_linear_fills :
  forall l prev, Forall2 fills l (interp_linear prev l).
Proof.
  induction l as [|[v|] l IH]; intros prev; simpl; constructor;
    try apply IH; [apply fills_refl | discriminate].
Qed.

Lemma Forall2_map_r {A B : Type} (R : A -> B -> Prop) (h : A -> B) :
  forall l, (forall x, In x l -> R x (h x)) -> Forall2 R l (map h l).
Proof.
  induction l as [|x l IH]; intros H; simpl; constructor.
  - apply H; now left.
  - apply IH; intros y Hy; apply H; now right.
Qed.

Lemma column_names_map_columns (f : list cell -> list cell) (df : DataFrame) :
  column_names (map_columns f df) = column_names df.
Proof.
  unfold column_names, map_columns; simpl. now rewrite map_map.
Qed.

(** The three steps on a table, for a column-wise fill [f]. *)
Lemma fill_then_drop_frame (f : list cell -> list cell) (df : DataFrame) :
  (forall a, Forall2 fills a (f a)) ->
  let out := dropna (interpolate (map_columns f df)) in
  column_names out = column_names df /\
  exists mask,
    length mask = len df /\
    index out = take_mask mask (index df) /\
    Forall2 (fun cin cout =>
               fst cout = fst cin /\
               exists filled,
                 Forall2 fills (snd cin) filled /\
                 snd cout = take_mask mask filled)
            (columns df) (columns out).
Proof.
  intros Hf out. split.
  - unfold out, dropna, interpolate.
    now rewrite column_names_select, !column_names_map_columns.
  - exists (dropna_mask (interpolate (map_columns f df))).
    split; [|split].
    + unfold dropna_mask, len; simpl. now rewrite length_map, length_seq.
    + reflexivity.
    + unfold out, dropna, interpolate, select_rows, map_columns; simpl.
      rewrite !map_map; simpl.
      apply Forall2_map_r. intros c _; simpl. split; [reflexivity|].
      exists (interp_linear None (f (snd c))). split; [|reflexivity].
      eapply Forall2_fills_trans; [apply Hf | apply interp_linear_fills].
Qed.

(** C10: [handle_missing_values] keeps the column names, keeps a
    subsequence of the rows (one mask selects the index and every column),
    and each returned column is that selection of a column that agrees with
    the input column wherever the input holds a value. *)
Theorem handle_missing_values_frame :
  forall config df out,
    handle_missing_values config df = Ok out ->
    column_names out = column_names df /\
    exists mask,
      length mask = len df /\
      index out = take_mask mask (index df) /\
      Forall2 (fun cin cout =>
                 fst cout = fst cin /\
                 exists filled,
                   Forall2 fills (snd cin) filled /\
                   snd cout = take_mask mask filled)
              (columns df) (columns out).
Proof.
  intros config df out. unfold handle_missing_values, fillna.
  destruct (fill_method config); simpl; intros H;
    [injection H as <- | injection H as <- | discriminate].
  - apply fill_then_drop_frame. intros a; apply pad_limit_fills.
  - apply fill_then_drop_frame. intros a; apply backfill_fills.
Qed.

(** ** The fill step *)

Lemma nth_error_app_add {A : Type} (X Y : list A) (n j : nat) :
  length X = n -> nth_error (X ++ Y) (n + j) = nth_error Y j.
Proof.
  intros <-. rewrite nth_error_app2 by lia. f_equal; lia.
Qed.

Lemma pad_limit_length (lim : nat) (values : list cell) (val : cell) (k : nat) :
  length (pad_limit lim val k values) = length values.
Proof.
  symmetry. eapply Forall2_length, pad_limit_fills.
Qed.

(** Filling a prefix does not look at what follows it. *)
Lemma pad_limit_app (lim : nat) :
  forall pre val k l,
    exists val' k',
      pad_limit lim val k (pre ++ l)
      = pad_limit lim val k pre ++ pad_limit lim val' k' l.
Proof.
  induction pre as [|[v|] pre IH]; intros val k l; simpl.
  - eauto.
  - destruct (IH (Some v) 0%nat l) as (val' & k' & ->).
    exists val', k'; reflexivity.
  - destruct (Nat.ltb k lim).
    + destruct (IH val (S k) l) as (val' & k' & ->).
      exists val', k'; reflexivity.
    + destruct (IH val k l) as (val' & k' & ->).
      exists val', k'; reflexivity.
Qed.

(** In a run of missing entries, entry [i] is filled while the count of
    fills stays below the limit. *)
Lemma pad_limit_gap (lim : nat) (val : cell) (rest : list cell) :
  forall k c i,
    (i < k)%nat ->
    nth_error (pad_limit lim val c (repeat None k ++ rest)) i
    = Some (if Nat.ltb (c + i) lim then val else None).
Proof.
  induction k as [|k IH]; intros c i Hi; [lia|]. simpl.
  destruct (Nat.ltb c lim) eqn:E; destruct i as [|i]; simpl.
  - now rewrite Nat.add_0_r, E.
  - rewrite IH by lia. now rewrite Nat.add_succ_r.
  - now rewrite Nat.add_0_r, E.
  - rewrite IH by lia.
    apply Nat.ltb_ge in E.
    assert (Nat.ltb (c + i) lim = false) as -> by (apply Nat.ltb_ge; lia).
    assert (Nat.ltb (c + S i) lim = false) as -> by (apply Nat.ltb_ge; lia).
    reflexivity.
Qed.

Lemma pad_1d_gap (lim : nat) (pre rest : list cell) (v : Q) (k i : nat) :
  (i < k)%nat ->
  nth_error (pad_1d lim (pre ++ Some v :: repeat None k ++ rest))
            (length pre + S i)
  = Some (if Nat.ltb i lim then Some v else None).
Proof.
  intros Hi. unfold pad_1d.
  destruct (pad_limit_app lim pre None 0%nat
              (Some v :: repeat None k ++ rest)) as (val' & k' & ->).
  rewrite nth_error_app_add by apply pad_limit_length.
  simpl. now rewrite pad_limit_gap.
Qed.

Lemma backfill_1d_gap (lim : nat) (pre rest : list cell) (v : Q) (k i : nat) :
  (i < k)%nat ->
  nth_error (backfill_1d lim (pre ++ repeat None k ++ Some v :: rest))
            (length pre + i)
  = Some (if Nat.ltb (k - 1 - i) lim then Some v else None).
Proof.
  intros Hi. unfold backfill_1d.
  rewrite nth_error_rev.
  assert (length (pad_1d lim (rev (pre ++ repeat None k ++ Some v :: rest)))
          = (length pre + k + S (length rest))%nat) as Hlen.
  { unfold pad_1d. rewrite pad_limit_length, length_rev, !length_app.
    rewrite repeat_length. simpl. lia. }
  rewrite Hlen.
  assert (Nat.ltb (length pre + i) (length pre + k + S (length rest)) = true)
    as -> by (apply Nat.ltb_lt; lia).
  replace (rev (pre ++ repeat None k ++ Some v :: rest))
    with (rev rest ++ Some v :: repeat None k ++ rev pre).
  2:{ rewrite !rev_app_distr. simpl. rewrite rev_repeat, <- !app_assoc.
      reflexivity. }
  replace (length pre + k + S (length rest) - S (length pre + i))%nat
    with (length (rev rest) + S (k - 1 - i))%nat
    by (rewrite length_rev; lia).
  apply pad_1d_gap. lia.
Qed.

(** ** The interpolation step *)

Lemma interp_linear_length :
  forall l prev, length (interp_linear prev l) = length l.
Proof.
  intros l prev. symmetry. eapply Forall2_length, interp_linear_fills.
Qed.

Lemma interp_linear_app :
  forall pre prev l,
    exists X,
      length X = length pre /\
      interp_linear prev (pre ++ l)
      = X ++ interp_linear (fold_left step_prev pre prev) l.
Proof.
  induction pre as [|[v|] pre IH]; intros prev l; simpl.
  - exists []; auto.
  - destruct (IH (Some (1%nat, v)) l) as (X & HX & ->).
    exists (Some v :: X); simpl; auto.
  - destruct (IH (match prev with
                  | Some (dp, a) => Some (S dp, a)
                  | None => None
                  end) l) as (X & HX & ->).
    eexists (_ :: X); simpl; split; [now rewrite HX | reflexivity].
Qed.

Lemma next_valid_gap (k : nat) (b : Q) (rest : list cell) :
  next_valid (repeat None k ++ Some b :: rest) = Some (k, b).
Proof.
  induction k as [|k IH]; simpl; [reflexivity | now rewrite IH].
Qed.

Lemma next_valid_trailing (k : nat) : next_valid (repeat None k) = None.
Proof.
  induction k as [|k IH]; simpl; [reflexivity | now rewrite IH].
Qed.

(** Between two present entries: [slope * (x - xp) + fp]. *)
Lemma interp_linear_gap (a b : Q) (rest : list cell) :
  forall k d i,
    (i < k)%nat ->
    nth_error (interp_linear (Some (d, a)) (repeat None k ++ Some b :: rest)) i
    = Some (Some ((b - a) / Qnat (d + k) * Qnat (d + i) + a)).
Proof.
  induction k as [|k IH]; intros d i Hi; [lia|]. simpl.
  rewrite next_valid_gap.
  destruct i as [|i]; simpl.
  - replace (d + k + 1)%nat with (d + S k)%nat by lia.
    now rewrite Nat.add_0_r.
  - rewrite IH by lia.
    replace (S d + k)%nat with (d + S k)%nat by lia.
    replace (S d + i)%nat with (d + S i)%nat by lia.
    reflexivity.
Qed.

(** After the last present entry: its value. *)
Lemma interp_linear_trailing (a : Q) :
  forall k d i,
    (i < k)%nat ->
    nth_error (interp_linear (Some (d, a)) (repeat None k)) i = Some (Some a).
Proof.
  induction k as [|k IH]; intros d i Hi; [lia|]. simpl.
  rewrite next_valid_trailing.
  destruct i as [|i]; simpl; [reflexivity | apply IH; lia].
Qed.

(** Before the first present entry: its value. *)
Lemma interp_linear_leading (b : Q) (rest : list cell) :
  forall k i,
    (i < k)%nat ->
    nth_error (interp_linear None (repeat None k ++ Some b :: rest)) i
    = Some (Some b).
Proof.
  induction k as [|k IH]; intros i Hi; [lia|]. simpl.
  rewrite next_valid_gap.
  destruct i as [|i]; simpl; [reflexivity | apply IH; lia].
Qed.

Lemma next_valid_In (l : list cell) (v : Q) :
  In (Some v) l -> next_valid l <> None.
Proof.
  induction l as [|[x|] l IH]; simpl; [tauto | discriminate |].
  intros [H|H]; [discriminate|].
  destruct (next_valid l) as [[k b]|]; [discriminate | now apply IH].
Qed.

Lemma interp_linear_closes :
  forall l prev,
    prev <> None \/ next_valid l <> None ->
    Forall (fun y => notna y = true) (interp_linear prev l).
Proof.
  induction l as [|[v|] l IH]; intros prev H; simpl; [constructor| |].
  - constructor; [reflexivity|]. apply IH. left; discriminate.
  - simpl in H. constructor.
    + destruct prev as [[dp a]|], (next_valid l) as [[dn b]|];
        try reflexivity.
      destruct H as [H|H]; congruence.
    + apply IH.
      destruct prev as [[dp a]|]; [left; discriminate|].
      right. destruct (next_valid l) as [[dn b]|]; [discriminate|].
      destruct H as [H|H]; congruence.
Qed.

(** ** The drop step *)

Lemma row_notna_true (cols : list (string * list cell)) (i : nat) :
  row_notna cols i = true <->
  forall c, In c cols -> exists v, nth_error (snd c) i = Some (Some v).
Proof.
  unfold row_notna. rewrite forallb_forall.
  split; intros H c Hc; specialize (H c Hc).
  - destruct (nth_error (snd c) i) as [[v|]|]; [eauto | discriminate..].
  - destruct H as (v & ->). reflexivity.
Qed.

Lemma dropna_mask_true (df : DataFrame) (i : nat) :
  nth_error (dropna_mask df) i = Some true <->
  (i < len df)%nat /\
  forall c, In c (columns df) -> exists v, nth_error (snd c) i = Some (Some v).
Proof.
  unfold dropna_mask. rewrite nth_error_map, nth_error_seq.
  destruct (Nat.ltb_spec i (len df)) as [Hlt|Hge]; simpl.
  - rewrite <- row_notna_true. split.
    + intros [= H]; auto.
    + intros [_ H]; now rewrite H.
  - split; [discriminate | lia].
Qed.

(** ** The gap scenario *)

(** C7: [handle_missing_values] is the fill, then the interpolation, then
    the drop.  The fill reaches at most 6 entries into a gap (forward from
    the value before it, backward from the value after it).  The
    interpolation leaves no gap in a column that holds a value: between two
    values it is linear, before the first and after the last value it takes
    that value.  The drop keeps exactly the rows where every column holds a
    value.  With forward fill the second row of the scenario receives the
    first row's readings. *)
Theorem handle_missing_values_three_steps :
  (forall config df,
      handle_missing_values config df
      = (df1 <- fillna (fill_method config) 6 df ;;
         Ok (dropna (interpolate df1)))) /\
  (forall df,
      fillna Pad 6 df = Ok (map_columns (pad_1d 6) df) /\
      fillna Backfill 6 df = Ok (map_columns (backfill_1d 6) df) /\
      interpolate df = map_columns (interp_linear None) df /\
      dropna df = select_rows (dropna_mask df) df) /\
  (forall pre v k rest i,
      (i < k)%nat ->
      nth_error (pad_1d 6 (pre ++ Some v :: repeat None k ++ rest))
                (length pre + S i)
      = Some (if Nat.ltb i 6 then Some v else None)) /\
  (forall pre v k rest i,
      (i < k)%nat ->
      nth_error (backfill_1d 6 (pre ++ repeat None k ++ Some v :: rest))
                (length pre + i)
      = Some (if Nat.ltb (k - 1 - i) 6 then Some v else None)) /\
  (forall l v,
      In (Some v) l ->
      Forall (fun y => notna y = true) (interp_linear None l)) /\
  (forall pre a k b rest i,
      (i < k)%nat ->
      nth_error
        (interp_linear None (pre ++ Some a :: repeat None k ++ Some b :: rest))
        (length pre + S i)
      = Some (Some ((b - a) / Qnat (S k) * Qnat (S i) + a))) /\
  (forall k b rest i,
      (i < k)%nat ->
      nth_error (interp_linear None (repeat None k ++ Some b :: rest)) i
      = Some (Some b)) /\
  (forall pre a k i,
      (i < k)%nat ->
      nth_error (interp_linear None (pre ++ Some a :: repeat None k))
                (length pre + S i)
      = Some (Some a)) /\
  (forall df i,
      nth_error (dropna_mask df) i = Some true <->
      (i < len df)%nat /\
      forall c, In c (columns df) ->
                exists v, nth_error (snd c) i = Some (Some v)) /\
  handle_missing_values config_hourly df_gap = Ok df_gap_filled.
Proof.
  repeat match goal with |- _ /\ _ => split end.
  - reflexivity.
  - intros df. repeat split.
  - intros. now apply pad_1d_gap.
  - intros. now apply backfill_1d_gap.
  - intros l v Hin. apply interp_linear_closes. right.
    now apply next_valid_In with (v := v).
  - intros pre a k b rest i Hi.
    destruct (interp_linear_app pre None
                (Some a :: repeat None k ++ Some b :: rest)) as (X & HX & ->).
    rewrite nth_error_app_add by exact HX. simpl.
    apply (interp_linear_gap a b rest k 1%nat i Hi).
  - intros. now apply interp_linear_leading.
  - intros pre a k i Hi.
    destruct (interp_linear_app pre None (Some a :: repeat None k))
      as (X & HX & ->).
    rewrite nth_error_app_add by exact HX. simpl.
    now apply interp_linear_trailing.
  - apply dropna_mask_true.
  - vm_compute. reflexivity.
Qed.

Lemma handle_missing_values_frame_witness :
  column_names df_gap_filled = column_names df_gap /\
  exists mask,
    length mask = len df_gap /\
    index df_gap_filled = take_mask mask (index df_gap) /\
    Forall2 (fun cin cout =>
               fst cout = fst cin /\
               exists filled,
                 Forall2 fills (snd cin) filled /\
                 snd cout = take_mask mask filled)
            (columns df_gap) (columns df_gap_filled).
Proof.
  apply (handle_missing_values_frame config_hourly df_gap df_gap_filled).
  vm_compute. reflexivity.
Defined.

(** ** Bin edges *)

Lemma index_min_le (t : Z) (ts : list Z) :
  (index_min t ts <= t)%Z /\ Forall (fun x => (index_min t ts <= x)%Z) ts.
Proof.
  unfold index_min. induction ts as [|x ts [IH1 IH2]]; simpl.
  - split; [lia | constructor].
  - split; [lia|]. constructor; [lia|].
    eapply Forall_impl; [|exact IH2]. simpl; intros; lia.
Qed.

Lemma index_max_ge (t : Z) (ts : list Z) :
  (t <= index_max t ts)%Z /\ Forall (fun x => (x <= index_max t ts)%Z) ts.
Proof.
  unfold index_max. induction ts as [|x ts [IH1 IH2]]; simpl.
  - split; [lia | constructor].
  - split; [lia|]. constructor; [lia|].
    eapply Forall_impl; [|exact IH2]. simpl; intros; lia.
Qed.

(** Both edges sit on the grid anchored at midnight of the first day. *)
Lemma range_edges_grid (first last w : Z) :
  (0 < w)%Z ->
  let origin := normalize first in
  range_edges first last w
  = ((origin + w * ((first - origin) / w))%Z,
     (origin + w * ((last - origin) / w + 1))%Z).
Proof.
  intros Hw origin. unfold range_edges. fold origin.
  pose proof (Z.mod_pos_bound (first - origin) w Hw) as Hf.
  pose proof (Z.mod_pos_bound (last - origin) w Hw) as Hl.
  pose proof (Z.div_mod (first - origin) w ltac:(lia)) as Ef.
  pose proof (Z.div_mod (last - origin) w ltac:(lia)) as El.
  f_equal.
  - destruct (Z.ltb_spec 0 ((first - origin) mod w)); lia.
  - destruct (Z.ltb_spec 0 ((last - origin) mod w)); lia.
Qed.

Lemma date_range_periods (b0 w : Z) (n : nat) :
  (0 < w)%Z ->
  date_range b0 (b0 + w * Z.of_nat n) w = periods b0 w 0 (S n).
Proof.
  intros Hw. unfold date_range, periods.
  assert ((b0 + w * Z.of_nat n <? b0)%Z = false) as ->
    by (apply Z.ltb_ge; nia).
  replace (b0 + w * Z.of_nat n - b0)%Z with (Z.of_nat n * w)%Z by lia.
  rewrite Z.div_mul by lia. now rewrite Nat2Z.id.
Qed.

Lemma removelast_periods (b0 w : Z) (n : nat) :
  removelast (periods b0 w 0 (S n)) = periods b0 w 0 n.
Proof.
  unfold periods. rewrite seq_S, map_app. simpl. apply removelast_last.
Qed.

Lemma tl_periods (b0 w : Z) (n : nat) :
  tl (periods b0 w 0 (S n)) = periods b0 w 1 n.
Proof. reflexivity. Qed.

(** The bin edges of a non-empty index: a grid of [n + 1] edges, [n >= 1],
    whose span holds every timestamp. *)
Lemma binner_periods (w : Z) (t : Z) (ts : list Z) :
  (0 < w)%Z ->
  exists b0 n,
    binner w (t :: ts) = periods b0 w 0 (S (S n)) /\
    Forall (fun x => (b0 <= x < b0 + Z.of_nat (S n) * w)%Z) (t :: ts).
Proof.
  intros Hw. unfold binner.
  set (mn := index_min t ts). set (mx := index_max t ts).
  rewrite (range_edges_grid mn mx w Hw).
  set (o := normalize mn).
  destruct (index_min_le t ts) as [Hmn1 Hmn2].
  destruct (index_max_ge t ts) as [Hmx1 Hmx2].
  fold mn in Hmn1, Hmn2. fold mx in Hmx1, Hmx2.
  assert (mn <= mx)%Z as Hle by lia.
  pose proof (Z.div_le_mono (mn - o) (mx - o) w Hw ltac:(lia)) as Hq.
  set (qn := ((mn - o) / w)%Z) in *. set (qx := ((mx - o) / w)%Z) in *.
  pose proof (Z.mod_pos_bound (mn - o) w Hw) as Hf.
  pose proof (Z.mod_pos_bound (mx - o) w Hw) as Hl.
  pose proof (Z.div_mod (mn - o) w ltac:(lia)) as Ef.
  pose proof (Z.div_mod (mx - o) w ltac:(lia)) as El.
  fold qn in Ef. fold qx in El.
  exists (o + w * qn)%Z, (Z.to_nat (qx - qn)).
  split.
  - replace (o + w * (qx + 1))%Z
      with (o + w * qn + w * Z.of_nat (S (Z.to_nat (qx - qn))))%Z by nia.
    now apply date_range_periods.
  - assert (Z.of_nat (S (Z.to_nat (qx - qn))) = qx - qn + 1)%Z as -> by lia.
    constructor; [nia|].
    rewrite Forall_forall in *. intros x Hx.
    specialize (Hmn2 x Hx). specialize (Hmx2 x Hx). nia.
Qed.

Lemma bin_labels_nil (w : Z) : bin_labels w [] = [].
Proof. reflexivity. Qed.

Lemma periods_sorted (b0 w : Z) :
  (0 < w)%Z -> forall n s, StronglySorted Z.lt (periods b0 w s n).
Proof.
  intros Hw. unfold periods.
  induction n as [|n IH]; intros s; simpl; constructor; [apply IH|].
  apply Forall_map, Forall_forall. intros k Hk.
  apply in_seq in Hk. nia.
Qed.

Lemma StronglySorted_lt_NoDup (l : list Z) :
  StronglySorted Z.lt l -> NoDup l.
Proof.
  induction 1 as [|x l _ IH Hx]; constructor; [|exact IH].
  intros Hin. rewrite Forall_forall in Hx. specialize (Hx x Hin). lia.
Qed.

(** The labels of any index: a grid that covers every timestamp. *)
Lemma bin_labels_periods (w : Z) (idx : list Z) :
  (0 < w)%Z ->
  exists b0 n,
    bin_labels w idx = periods b0 w 0 n /\
    tl (binner w idx) = periods b0 w 1 n /\
    Forall (fun x => (b0 <= x < b0 + Z.of_nat n * w)%Z) idx.
Proof.
  intros Hw. destruct idx as [|t ts].
  - exists 0%Z, 0%nat. repeat split; constructor.
  - destruct (binner_periods w t ts Hw) as (b0 & n & Hb & Hcov).
    exists b0, (S n). unfold bin_labels. rewrite Hb.
    split; [apply removelast_periods | split; [apply tl_periods | exact Hcov]].
Qed.

(** ** Aggregation: index *)

Lemma lookup_col_None (c : string) :
  forall cols, lookup_col c cols = None -> ~ In c (map fst cols).
Proof.
  induction cols as [|[n v] cols IH]; simpl; [tauto|].
  destruct (String.eqb_spec c n) as [->|Hne]; [discriminate|].
  intros H [Heq|Hin]; [congruence | now apply IH].
Qed.

(** What [agg] returns: one column per entry of the dictionary, or the
    [KeyError] of a name that is not a column. *)
Lemma agg_columns_result (w : Z) (df : DataFrame) :
  forall spec,
    match agg_columns w spec df with
    | Ok cols =>
        Forall2 (fun sp c =>
                   fst c = fst sp /\
                   exists a,
                     lookup_col (fst sp) (columns df) = Some a /\
                     snd c = map (apply_agg (snd sp))
                                 (resample_column w (index df) a))
                spec cols
    | Raise e =>
        exists name,
          e = KeyError name /\ In name (map fst spec) /\
          ~ In name (column_names df)
    end.
Proof.
  induction spec as [|[name f] spec IH]; simpl; [constructor|].
  unfold getitem.
  destruct (lookup_col name (columns df)) as [a|] eqn:Ha; simpl.
  - destruct (agg_columns w spec df) as [cols|e]; simpl.
    + constructor; [|exact IH]. simpl. eauto.
    + destruct IH as (n & -> & Hin & Hnot). eauto.
  - exists name. split; [reflexivity|]. split; [now left|].
    now apply lookup_col_None.
Qed.

Lemma periods_cover (b0 w t : Z) (n : nat) :
  (0 < w)%Z ->
  (b0 <= t < b0 + Z.of_nat n * w)%Z ->
  exists b, In b (periods b0 w 0 n) /\ (b <= t < b + w)%Z.
Proof.
  intros Hw Ht.
  pose proof (Z.div_mod (t - b0) w ltac:(lia)) as E.
  pose proof (Z.mod_pos_bound (t - b0) w Hw) as Hm.
  assert (0 <= (t - b0) / w)%Z as Hq by (apply Z.div_pos; lia).
  assert ((t - b0) / w < Z.of_nat n)%Z as Hq' by nia.
  exists (b0 + Z.of_nat (Z.to_nat ((t - b0) / w)) * w)%Z. split.
  - unfold periods. apply in_map_iff.
    exists (Z.to_nat ((t - b0) / w)). split; [reflexivity|].
    apply in_seq. lia.
  - rewrite Z2Nat.id by lia. nia.
Qed.

(** C3: the index returned by [aggregate_data] is strictly increasing and
    without duplicates; it is the grid of periods of the configured width,
    one entry each, and every input timestamp falls in the period of one of
    them.  The call returns unless an aggregated column is absent. *)
Theorem aggregate_data_index_one_per_period :
  forall config df,
    let w := Z.pos (aggregation_level config) in
    match aggregate_data config df with
    | Ok out =>
        StronglySorted Z.lt (index out) /\
        NoDup (index out) /\
        (exists b0 n, index out = periods b0 w 0 n) /\
        (forall t, In t (index df) ->
                   exists b, In b (index out) /\ (b <= t < b + w)%Z)
    | Raise e =>
        exists name,
          e = KeyError name /\ In name (map fst agg_spec) /\
          ~ In name (column_names df)
    end.
Proof.
  intros config df w. unfold aggregate_data, resample_agg. fold w.
  pose proof (agg_columns_result w df agg_spec) as Hagg.
  destruct (agg_columns w agg_spec df) as [cols|e]; [|exact Hagg].
  cbn [bind index].
  assert (0 < w)%Z as Hw by (unfold w; lia).
  destruct (bin_labels_periods w (index df) Hw) as (b0 & n & -> & _ & Hcov).
  assert (StronglySorted Z.lt (periods b0 w 0 n)) as Hs
    by now apply periods_sorted.
  repeat split.
  - exact Hs.
  - now apply StronglySorted_lt_NoDup.
  - eauto.
  - intros t Ht. rewrite Forall_forall in Hcov.
    apply periods_cover; auto.
Qed.

(** ** Aggregation: groups *)

Section Groups.

Context {A : Type}.

Lemma insert_by_key_perm (p : Z * A) :
  forall l, Permutation (p :: l) (insert_by_key p l).
Proof.
  induction l as [|q l IH]; simpl; [reflexivity|].
  destruct (fst q <? fst p)%Z; [|reflexivity].
  rewrite perm_swap. now constructor.
Qed.

Lemma sort_by_key_perm :
  forall l : list (Z * A), Permutation l (sort_by_key l).
Proof.
  induction l as [|p l IH]; simpl; [constructor|].
  rewrite <- insert_by_key_perm. now constructor.
Qed.

Lemma insert_by_key_sorted (p : Z * A) :
  forall l, StronglySorted key_le l -> StronglySorted key_le (insert_by_key p l).
Proof.
  induction l as [|q l IH]; intros Hl; simpl.
  - repeat constructor.
  - inversion Hl as [|? ? Hl' Hq]; subst.
    destruct (Z.ltb_spec (fst q) (fst p)) as [Hlt|Hge].
    + constructor; [now apply IH|].
      eapply Permutation_Forall; [apply insert_by_key_perm|].
      constructor; [unfold key_le; lia | exact Hq].
    + constructor; [exact Hl|].
      constructor; [exact Hge|].
      eapply Forall_impl; [|exact Hq]. unfold key_le; intros; lia.
Qed.

Lemma sort_by_key_sorted :
  forall l : list (Z * A), StronglySorted key_le (sort_by_key l).
Proof.
  induction l as [|p l IH]; simpl; [constructor|].
  now apply insert_by_key_sorted.
Qed.

Lemma filter_all_false (f : Z * A -> bool) :
  forall l, Forall (fun p => f p = false) l -> filter f l = [].
Proof.
  induction 1 as [|p l Hp _ IH]; simpl; [reflexivity|]. now rewrite Hp.
Qed.

Lemma filter_all_true (f : Z * A -> bool) :
  forall l, Forall (fun p => f p = true) l -> filter f l = l.
Proof.
  induction 1 as [|p l Hp _ IH]; simpl; [reflexivity|].
  rewrite Hp. now f_equal.
Qed.

(** On sorted rows the leading run below an edge is all that is below it. *)
Lemma span_lt_sorted (e : Z) :
  forall rows : list (Z * A),
    StronglySorted key_le rows ->
    span_lt e rows
    = (filter (fun p => (fst p <? e)%Z) rows,
       filter (fun p => (e <=? fst p)%Z) rows).
Proof.
  induction rows as [|r rows IH]; intros Hs; simpl; [reflexivity|].
  inversion Hs as [|? ? Hs' Hr]; subst.
  destruct (Z.ltb_spec (fst r) e) as [Hlt|Hge].
  - rewrite (IH Hs').
    assert ((e <=? fst r)%Z = false) as -> by (apply Z.leb_gt; lia).
    reflexivity.
  - assert ((e <=? fst r)%Z = true) as -> by (apply Z.leb_le; lia).
    rewrite filter_all_false, filter_all_true; [reflexivity| |].
    + eapply Forall_impl; [|exact Hr]. unfold key_le; intros q Hq.
      apply Z.leb_le; lia.
    + eapply Forall_impl; [|exact Hr]. unfold key_le; intros q Hq.
      apply Z.ltb_ge; lia.
Qed.

Lemma filter_sorted (f : Z * A -> bool) :
  forall rows,
    StronglySorted key_le rows -> StronglySorted key_le (filter f rows).
Proof.
  induction rows as [|r rows IH]; intros Hs; simpl; [constructor|].
  inversion Hs as [|? ? Hs' Hr]; subst.
  destruct (f r); [|auto].
  constructor; [auto|].
  rewrite Forall_forall in *. intros q Hq.
  apply filter_In in Hq as [Hq _]. auto.
Qed.

Lemma filter_filter_implied (f g : Z * A -> bool) :
  (forall p, f p = true -> g p = true) ->
  forall l, filter f (filter g l) = filter f l.
Proof.
  intros Himp. induction l as [|p l IH]; simpl; [reflexivity|].
  destruct (g p) eqn:Eg; simpl.
  - destruct (f p); now rewrite IH.
  - destruct (f p) eqn:Ef; [|exact IH].
    apply Himp in Ef. congruence.
Qed.

(** Cutting sorted rows at the grid edges [b0 + (s+1) w], ... gives, for
    the period starting at [b0 + k w], the rows that lie in it. *)
Lemma generate_bins_periods (b0 w : Z) :
  (0 < w)%Z ->
  forall n s (rows : list (Z * A)),
    StronglySorted key_le rows ->
    Forall (fun p => (b0 + Z.of_nat s * w <= fst p)%Z) rows ->
    generate_bins (periods b0 w (S s) n) rows
    = map (fun b => filter (in_bucket b w) rows) (periods b0 w s n).
Proof.
  intros Hw. unfold periods.
  induction n as [|n IH]; intros s rows Hs Hlo; [reflexivity|].
  cbn [seq map generate_bins].
  rewrite (span_lt_sorted _ rows Hs).
  f_equal.
  - apply filter_ext_in. intros p Hp.
    rewrite Forall_forall in Hlo. specialize (Hlo p Hp).
    unfold in_bucket.
    assert ((b0 + Z.of_nat s * w <=? fst p)%Z = true) as ->
      by (apply Z.leb_le; lia).
    rewrite andb_true_l. f_equal. lia.
  - rewrite IH.
    + apply map_ext_in. intros b Hb.
      apply in_map_iff in Hb as (k & <- & Hk). apply in_seq in Hk.
      apply filter_filter_implied. intros p Hp.
      unfold in_bucket in Hp. apply andb_true_iff in Hp as [Hp _].
      apply Z.leb_le in Hp. apply Z.leb_le. nia.
    + now apply filter_sorted.
    + apply Forall_forall. intros p Hp.
      apply filter_In in Hp as [_ Hp]. apply Z.leb_le in Hp. lia.
Qed.

End Groups.

(** ** Aggregation: values *)

Lemma filter_perm {A : Type} (f : A -> bool) (l l' : list A) :
  Permutation l l' -> Permutation (filter f l) (filter f l').
Proof.
  induction 1 as [|x l l' _ IH|x y l|l1 l2 l3 _ IH1 _ IH2]; simpl.
  - constructor.
  - destruct (f x); [now constructor | exact IH].
  - destruct (f x), (f y); try reflexivity. apply perm_swap.
  - now rewrite IH1.
Qed.

Lemma present_perm (a a' : list cell) :
  Permutation a a' -> Permutation (present a) (present a').
Proof.
  induction 1 as [|x l l' _ IH|x y l|l1 l2 l3 _ IH1 _ IH2]; simpl.
  - constructor.
  - destruct x; [now constructor | exact IH].
  - destruct x, y; try reflexivity. apply perm_swap.
  - now rewrite IH1.
Qed.

Lemma sumQ_perm (l l' : list Q) : Permutation l l' -> sumQ l == sumQ l'.
Proof.
  induction 1 as [|x l l' _ IH|x y l|l1 l2 l3 _ IH1 _ IH2]; simpl.
  - reflexivity.
  - now rewrite IH.
  - ring.
  - now rewrite IH1.
Qed.

Lemma mean_perm (l l' : list Q) : Permutation l l' -> mean l == mean l'.
Proof.
  intros H. unfold mean, count.
  rewrite (sumQ_perm l l' H), (Permutation_length H). reflexivity.
Qed.

Lemma apply_agg_perm (f : aggfunc) (a a' : list cell) :
  Permutation a a' -> cell_equiv (apply_agg f a) (apply_agg f a').
Proof.
  intros H. apply present_perm in H.
  destruct f; simpl; unfold agg_mean, agg_sum.
  - pose proof (Permutation_length H) as Hlen.
    pose proof (mean_perm _ _ H) as Hm.
    destruct (present a), (present a'); try discriminate; simpl; auto.
  - simpl. now apply sumQ_perm.
Qed.

(** The groups of a column are the rows of each period, sorted. *)
Lemma resample_column_buckets (w : Z) (idx : list Z) (a : list cell) :
  (0 < w)%Z ->
  resample_column w idx a
  = map (fun b => map snd (filter (in_bucket b w)
                             (sort_by_key (combine idx a))))
        (bin_labels w idx).
Proof.
  intros Hw. unfold resample_column.
  destruct (bin_labels_periods w idx Hw) as (b0 & n & -> & -> & Hcov).
  rewrite generate_bins_periods.
  - now rewrite map_map.
  - exact Hw.
  - apply sort_by_key_sorted.
  - eapply Permutation_Forall; [apply sort_by_key_perm|].
    apply Forall_forall. intros [t x] Hin. simpl.
    apply in_combine_l in Hin.
    rewrite Forall_forall in Hcov. specialize (Hcov t Hin). lia.
Qed.

Lemma resample_column_nth (w : Z) (idx : list Z) (a : list cell)
  (f : aggfunc) (k : nat) (b : Z) :
  (0 < w)%Z ->
  nth_error (bin_labels w idx) k = Some b ->
  exists y,
    nth_error (map (apply_agg f) (resample_column w idx a)) k = Some y /\
    cell_equiv y (apply_agg f (bucket_cells b w idx a)).
Proof.
  intros Hw Hb. rewrite (resample_column_buckets w idx a Hw).
  rewrite map_map, nth_error_map, Hb. simpl.
  eexists; split; [reflexivity|].
  apply apply_agg_perm, Permutation_map, filter_perm.
  symmetry. apply sort_by_key_perm.
Qed.

Lemma present_map_Some (xs : list Q) : present (map Some xs) = xs.
Proof.
  induction xs as [|x xs IH]; simpl; [reflexivity | now rewrite IH].
Qed.

Lemma agg_columns_lookup (R : string * aggfunc -> list cell -> Prop) :
  forall spec cols,
    Forall2 (fun sp c => fst c = fst sp /\ R sp (snd c)) spec cols ->
    NoDup (map fst spec) ->
    forall sp, In sp spec ->
               exists v, lookup_col (fst sp) cols = Some v /\ R sp v.
Proof.
  induction 1 as [|sp0 [n v] spec cols [Hn HR] _ IH]; intros Hnd sp Hin;
    [destruct Hin|].
  simpl in Hn, HR. subst n. simpl in Hnd.
  inversion Hnd as [|? ? Hnot Hnd']; subst.
  simpl. destruct Hin as [->|Hin].
  - rewrite String.eqb_refl. eauto.
  - destruct (String.eqb_spec (fst sp) (fst sp0)) as [E|_].
    + exfalso. apply Hnot. rewrite <- E. now apply in_map.
    + now apply IH.
Qed.

Lemma agg_columns_names (w : Z) (df : DataFrame) :
  forall spec cols,
    agg_columns w spec df = Ok cols -> map fst cols = map fst spec.
Proof.
  induction spec as [|[name f] spec IH]; simpl; intros cols H.
  - now injection H as <-.
  - apply bind_Ok in H as (a & _ & H).
    apply bind_Ok in H as (cols' & Hc & H).
    injection H as <-. simpl. f_equal. now apply IH.
Qed.

Lemma agg_spec_NoDup : NoDup (map fst agg_spec).
Proof.
  simpl. repeat constructor; simpl; intuition discriminate.
Qed.

(** What [aggregate_data] holds for the entry [(name, f)] of the
    dictionary. *)
Lemma aggregate_data_column (config : Config) (df out : DataFrame)
  (name : string) (f : aggfunc) :
  aggregate_data config df = Ok out ->
  In (name, f) agg_spec ->
  exists a col,
    getitem df name = Ok a /\
    getitem out name = Ok col /\
    length col = length (index out) /\
    forall k b,
      nth_error (index out) k = Some b ->
      exists y,
        nth_error col k = Some y /\
        cell_equiv y
          (apply_agg f
             (bucket_cells b (Z.pos (aggregation_level config)) (index df) a)).
Proof.
  unfold aggregate_data, resample_agg.
  set (w := Z.pos (aggregation_level config)).
  assert (0 < w)%Z as Hw by (unfold w; lia).
  intros H Hin. apply bind_Ok in H as (cols & Hcols & H).
  injection H as <-. cbn [index columns].
  pose proof (agg_columns_result w df agg_spec) as Hres.
  rewrite Hcols in Hres.
  destruct (agg_columns_lookup
              (fun sp v =>
                 exists a,
                   lookup_col (fst sp) (columns df) = Some a /\
                   v = map (apply_agg (snd sp))
                           (resample_column w (index df) a))
              agg_spec cols Hres agg_spec_NoDup (name, f) Hin)
    as (col & Hcol & a & Ha & ->).
  simpl in Hcol, Ha.
  exists a, (map (apply_agg f) (resample_column w (index df) a)).
  split; [now apply getitem_Ok|].
  split; [unfold getitem; simpl; now rewrite Hcol|].
  split.
  - rewrite (resample_column_buckets w (index df) a Hw).
    now rewrite !length_map.
  - intros k b Hb. now apply resample_column_nth.
Qed.

(** C4: in every period of the returned table, the four power, voltage and
    intensity columns hold the arithmetic mean, and the three sub-metering
    columns the sum, of the entries of the input rows that fall in the
    period; on sixty rows of one hour, sub-metering 1.0 gives 60.0 and
    voltage 230.0 gives 230.0. *)
Theorem aggregate_data_mean_and_sum :
  (forall config df out,
      aggregate_data config df = Ok out ->
      let w := Z.pos (aggregation_level config) in
      column_names out
      = ["Global_active_power"; "Global_reactive_power"; "Voltage";
         "Global_intensity"; "Sub_metering_1"; "Sub_metering_2";
         "Sub_metering_3"]%string /\
      (forall name,
          In name ["Global_active_power"; "Global_reactive_power";
                   "Voltage"; "Global_intensity"]%string ->
          exists a col,
            getitem df name = Ok a /\ getitem out name = Ok col /\
            length col = length (index out) /\
            forall k b,
              nth_error (index out) k = Some b ->
              exists y,
                nth_error col k = Some y /\
                cell_equiv y (agg_mean (bucket_cells b w (index df) a))) /\
      (forall name,
          In name ["Sub_metering_1"; "Sub_metering_2";
                   "Sub_metering_3"]%string ->
          exists a col,
            getitem df name = Ok a /\ getitem out name = Ok col /\
            length col = length (index out) /\
            forall k b,
              nth_error (index out) k = Some b ->
              exists y,
                nth_error col k = Some y /\
                cell_equiv y (agg_sum (bucket_cells b w (index df) a)))) /\
  (forall x xs,
      agg_mean (map Some (x :: xs))
      = Some (sumQ (x :: xs) / count (x :: xs))) /\
  (forall xs, agg_sum (map Some xs) = Some (sumQ xs)) /\
  (exists out v,
      aggregate_data config_hourly df_one_hour = Ok out /\
      index out = [1167609600000000000%Z] /\
      getitem out "Sub_metering_1" = Ok [Some 60] /\
      getitem out "Sub_metering_2" = Ok [Some 60] /\
      getitem out "Sub_metering_3" = Ok [Some 60] /\
      getitem out "Voltage" = Ok [Some v] /\ v == 230).
Proof.
  split; [|split; [|split]].
  - intros config df out H w. split; [|split].
    + unfold aggregate_data, resample_agg in H.
      apply bind_Ok in H as (cols & Hcols & H). injection H as <-.
      unfold column_names. cbn [columns].
      now rewrite (agg_columns_names _ _ _ _ Hcols).
    + intros name Hin.
      apply (aggregate_data_column config df out name AggMean H).
      simpl in Hin. simpl. intuition (subst; auto).
    + intros name Hin.
      apply (aggregate_data_column config df out name AggSum H).
      simpl in Hin. simpl. intuition (subst; auto 10).
  - intros x xs. unfold agg_mean. rewrite present_map_Some. reflexivity.
  - intros xs. unfold agg_sum. now rewrite present_map_Some.
  - eexists _, _.
    split; [vm_compute; reflexivity|].
    split; [vm_compute; reflexivity|].
    split; [vm_compute; reflexivity|].
    split; [vm_compute; reflexivity|].
    split; [vm_compute; reflexivity|].
    split; [vm_compute; reflexivity|].
    vm_compute. reflexivity.
Qed.

(** ** Loading processed data *)

Example path_join_default :
  path_join "data/processed" "hourly_consumption.csv"
  = "data/processed/hourly_consumption.csv"%string.
Proof. reflexivity. Qed.

Example path_join_absolute :
  path_join "data/processed" "/tmp/x.csv" = "/tmp/x.csv"%string.
Proof. reflexivity. Qed.

(** C8: [load_processed_data] raises [FileNotFoundError] exactly when the
    joined path does not exist; this error is raised by the check itself, and
    no failure of the parser is reported as it: a failed call ends either in
    it or in an error of reading.  When the path names a file, the result is
    what [read_csv] makes of its content with the first column as index and
    date parsing on. *)
Theorem load_processed_data_not_found_iff_absent :
  forall (read_csv : string -> nat -> bool -> read_error + DataFrame)
         fs config filename,
    let path := path_join (processed_path config) filename in
    ((exists msg,
         load_processed_data read_csv fs config filename
         = Raise (FileNotFoundError msg)) <->
     path_exists fs path = false) /\
    (path_exists fs path = false <->
     load_processed_data read_csv fs config filename
     = Raise (FileNotFoundError
                ("Processed data not found at " ++ path)%string)) /\
    (forall content,
        fs path = Some (File content) ->
        load_processed_data read_csv fs config filename
        = match read_csv content 0%nat true with
          | inr df => Ok df
          | inl e => Raise (ReadError e)
          end) /\
    (forall e,
        load_processed_data read_csv fs config filename = Raise e ->
        (exists msg, e = FileNotFoundError msg) \/
        (exists re, e = ReadError re)).
Proof.
  intros read_csv fs config filename path.
  unfold load_processed_data. fold path. unfold path_exists.
  destruct (fs path) as [[content|]|]; simpl.
  - split; [|split; [|split]].
    + split; [|discriminate].
      intros (msg & H). destruct (read_csv content 0%nat true); discriminate.
    + split; [discriminate|].
      destruct (read_csv content 0%nat true); discriminate.
    + intros c [= ->]. reflexivity.
    + intros e. destruct (read_csv content 0%nat true) as [re|df];
        intros [= <-]. eauto.
  - split; [|split; [|split]].
    + split; [intros (msg & H); discriminate | discriminate].
    + split; discriminate.
    + discriminate.
    + intros e [= <-]. eauto.
  - split; [|split; [|split]].
    + split; [reflexivity | eauto].
    + split; reflexivity.
    + discriminate.
    + intros e [= <-]. eauto.
Qed.

(** ** Variance is not negative *)

Lemma sumQ_nonneg (l : list Q) : Forall (fun x => 0 <= x) l -> 0 <= sumQ l.
Proof.
  induction 1 as [|x l Hx _ IH]; simpl; [apply Qle_refl|].
  cbv beta in Hx. lra.
Qed.

Lemma Qsquare_nonneg (y : Q) : 0 <= y * y.
Proof. nra. Qed.

Lemma var_nonneg (xs : list Q) : 0 <= var xs.
Proof.
  unfold var, mean.
  set (ds := map (fun x => (x - sumQ xs / count xs)
                           * (x - sumQ xs / count xs)) xs).
  assert (0 <= sumQ ds) as Hs.
  { apply sumQ_nonneg, Forall_map, Forall_forall. intros x _.
    apply Qsquare_nonneg. }
  pose proof (count_nonneg ds) as Hc.
  unfold Qdiv. apply Qmult_le_0_compat; [exact Hs|].
  now apply Qinv_le_0_compat.
Qed.

(** ** The threshold test over the reals

    [zabs_lt] decides [|dev / sqrt variance| < t] without the square root;
    the lemmas below state it with [sqrt] and [Rabs] over the reals. *)

Lemma Qltb_lt (x y : Q) : Qltb x y = true <-> x < y.
Proof.
  unfold Qltb. rewrite negb_true_iff. split.
  - intros H. apply Qnot_le_lt. intros Hle.
    apply Qle_bool_iff in Hle. congruence.
  - intros H. destruct (Qle_bool y x) eqn:E; [|reflexivity].
    apply Qle_bool_iff in E. exfalso. apply (Qlt_not_le _ _ H E).
Qed.

Lemma abs_quot_lt (D V T : R) :
  (0 < V)%R ->
  ((Rabs (D / sqrt V) < T)%R <-> (0 < T /\ D * D < T * T * V)%R).
Proof.
  intros HV.
  pose proof (sqrt_lt_R0 V HV) as Hs.
  pose proof (sqrt_sqrt V ltac:(lra)) as Hss.
  set (s := sqrt V) in *.
  assert (Rabs (D / s) = Rabs D / s)%R as ->.
  { unfold Rdiv. rewrite Rabs_mult, (Rabs_pos_eq (/ s)); [reflexivity|].
    left. now apply Rinv_0_lt_compat. }
  assert (forall x, (x / s < T <-> x < T * s)%R) as Hdiv.
  { intros x. split; intros H.
    - apply (Rmult_lt_compat_r s) in H; [|exact Hs].
      unfold Rdiv in H. rewrite Rmult_assoc, Rinv_l in H; lra.
    - apply (Rmult_lt_reg_r s); [exact Hs|].
      unfold Rdiv. rewrite Rmult_assoc, Rinv_l; lra. }
  rewrite Hdiv.
  pose proof (Rabs_pos D) as Hab.
  assert (Rabs D * Rabs D = D * D)%R as Hsq.
  { unfold Rabs. destruct (Rcase_abs D); ring. }
  split.
  - intros H. assert (0 < T)%R as HT by nra. split; [exact HT|].
    rewrite <- Hsq, <- Hss. nra.
  - intros [HT H]. rewrite <- Hsq, <- Hss in H.
    assert (0 < T * s)%R by nra. nra.
Qed.

Lemma zabs_lt_sqrt (d v t : Q) :
  0 < v ->
  zabs_lt (ZQuot d v) t = true <->
  (Rabs (Q2R d / sqrt (Q2R v)) < Q2R t)%R.
Proof.
  intros Hv. simpl. rewrite andb_true_iff, !Qltb_lt.
  assert (0 < Q2R v)%R as HV.
  { apply Qlt_Rlt in Hv. now rewrite RMicromega.Q2R_0 in Hv. }
  rewrite (abs_quot_lt _ _ _ HV). split.
  - intros [Ht H]. apply Qlt_Rlt in Ht, H.
    rewrite RMicromega.Q2R_0 in Ht. rewrite !Q2R_mult in H. auto.
  - intros [Ht H]. split; apply Rlt_Qlt.
    + now rewrite RMicromega.Q2R_0.
    + now rewrite !Q2R_mult.
Qed.

(** The score of a value is a quotient by a positive variance, so the test
    is the comparison of [|x - mean| / sqrt variance] with the threshold. *)
Lemma zscore_of_sqrt (xs : list Q) (x t : Q) :
  zabs_lt (zscore_of xs x) t = true <->
  0 < var xs /\
  (Rabs (Q2R (x - mean xs) / sqrt (Q2R (var xs))) < Q2R t)%R.
Proof.
  unfold zscore_of.
  destruct (Qeq_bool (var xs) 0) eqn:E.
  - apply Qeq_bool_iff in E. split; [discriminate|].
    intros [H _]. rewrite E in H. discriminate.
  - assert (0 < var xs) as Hv.
    { pose proof (var_nonneg xs) as Hn.
      apply Qle_lt_or_eq in Hn as [Hn|Hn]; [exact Hn|].
      symmetry in Hn. apply Qeq_bool_iff in Hn. congruence. }
    rewrite (zabs_lt_sqrt _ _ _ Hv). tauto.
Qed.

(** * Further properties of the preprocessor *)

(** ** Row selection *)

Lemma and_mask_length (m1 m2 : list bool) :
  length (and_mask m1 m2) = length m1.
Proof.
  revert m2. induction m1 as [|[] m1 IH]; intros m2; simpl; auto.
  destruct m2; simpl; auto.
Qed.

Lemma take_mask_and_mask {A : Type} :
  forall (m1 m2 : list bool) (l : list A),
    take_mask m2 (take_mask m1 l) = take_mask (and_mask m1 m2) l.
Proof.
  induction m1 as [|[] m1 IH]; intros m2 l; simpl.
  - now rewrite take_mask_nil.
  - destruct l as [|x l].
    + rewrite take_mask_nil. destruct m2; simpl; now rewrite ?take_mask_nil.
    + destruct m2 as [|b m2]; simpl.
      * rewrite <- IH. destruct (take_mask m1 l); reflexivity.
      * destruct b; now rewrite IH.
  - destruct l as [|x l]; [now rewrite !take_mask_nil | apply IH].
Qed.

Lemma select_rows_select_rows (m1 m2 : list bool) (df : DataFrame) :
  select_rows m2 (select_rows m1 df) = select_rows (and_mask m1 m2) df.
Proof.
  unfold select_rows; simpl. f_equal.
  - apply take_mask_and_mask.
  - rewrite map_map. apply map_ext. intros c; simpl.
    now rewrite take_mask_and_mask.
Qed.

Lemma take_mask_all_true {A B : Type} (a : list B) :
  forall l : list A,
    length l = length a -> take_mask (map (fun _ => true) a) l = l.
Proof.
  induction a as [|y a IH]; intros [|x l] H; simpl in *;
    try reflexivity; try discriminate.
  f_equal. apply IH. now injection H.
Qed.

Lemma select_rows_all_true (df : DataFrame) :
  wf df -> select_rows (map (fun _ => true) (index df)) df = df.
Proof.
  intros [Hlen _]. destruct df as [idx cols]. unfold select_rows; simpl in *.
  f_equal.
  - now apply take_mask_all_true.
  - rewrite <- (map_id cols) at 2. apply map_ext_in. intros [n v] Hin.
    rewrite Forall_forall in Hlen. specialize (Hlen _ Hin). simpl in *.
    now rewrite take_mask_all_true.
Qed.

Lemma take_mask_length_eq {A B : Type} (mask : list bool) :
  forall (l : list A) (l' : list B),
    length l = length l' ->
    length (take_mask mask l) = length (take_mask mask l').
Proof.
  induction mask as [|b mask IH]; intros [|x l] [|y l'] H; simpl in *;
    try reflexivity; try discriminate.
  injection H as H. destruct b; simpl; auto.
Qed.

Lemma select_rows_wf (mask : list bool) (df : DataFrame) :
  wf df -> wf (select_rows mask df).
Proof.
  intros [Hlen Hnd]. split.
  - simpl. apply Forall_map. eapply Forall_impl; [|exact Hlen].
    simpl. intros c Hc. now apply take_mask_length_eq.
  - now rewrite column_names_select.
Qed.

Lemma outlier_loop_select (t : Q) :
  forall cols df out,
    wf df ->
    outlier_loop t cols df = Ok out ->
    exists mask, length mask = len df /\ out = select_rows mask df.
Proof.
  induction cols as [|c cols IH]; intros df out Hwf Hrun.
  - injection Hrun as <-. exists (map (fun _ => true) (index df)).
    split; [apply length_map | symmetry; now apply select_rows_all_true].
  - rewrite outlier_loop_cons in Hrun.
    apply bind_Ok in Hrun as (a & Ha & Hrun).
    apply IH in Hrun as (mask & _ & ->); [|now apply select_rows_wf].
    exists (and_mask (zmask t a) mask). split.
    + rewrite and_mask_length. unfold zmask, zscore, len.
      destruct Hwf as [Hlen _]. rewrite Forall_forall in Hlen.
      apply getitem_Ok, lookup_col_Some_In, Hlen in Ha. simpl in Ha.
      destruct (all_present a) as [xs|] eqn:E.
      * rewrite (all_present_map a xs E) in Ha.
        now rewrite !length_map in *.
      * now rewrite !length_map.
    + apply select_rows_select_rows.
Qed.

(** X1: [remove_outliers] only drops rows: the table it returns is the input
    restricted by one mask, the same for the index and for every column, so
    no value, name or order changes and the table stays rectangular. *)
Theorem remove_outliers_row_selection :
  forall config df cols out,
    wf df ->
    remove_outliers config df cols = Ok out ->
    (exists mask, length mask = len df /\ out = select_rows mask df) /\
    column_names out = column_names df /\
    wf out.
Proof.
  intros config df cols out Hwf Hrun.
  apply remove_outliers_Ok in Hrun as [Hrun _].
  destruct (outlier_loop_select _ _ _ _ Hwf Hrun) as (mask & Hlen & ->).
  split; [eauto|]. split.
  - apply column_names_select.
  - now apply select_rows_wf.
Qed.

Ltac solve_wf :=
  split; [repeat constructor | repeat constructor; simpl; intuition discriminate].

Lemma remove_outliers_row_selection_witness :
  (exists mask,
      length mask = len df_overlap /\
      select_rows
        [true; true; true; true; true; true; true; true; true; true; false]
        df_overlap = select_rows mask df_overlap) /\
  column_names
    (select_rows
       [true; true; true; true; true; true; true; true; true; true; false]
       df_overlap) = column_names df_overlap /\
  wf (select_rows
        [true; true; true; true; true; true; true; true; true; true; false]
        df_overlap).
Proof.
  apply (remove_outliers_row_selection config_hourly df_overlap None).
  - solve_wf.
  - vm_compute. reflexivity.
Defined.

(** ** Errors of [remove_outliers] *)

Lemma outlier_loop_total (t : Q) :
  forall cols df,
    (forall c, In c cols -> In c (column_names df)) ->
    exists out, outlier_loop t cols df = Ok out /\
                column_names out = column_names df.
Proof.
  induction cols as [|c cols IH]; intros df Hin; simpl; [eauto|].
  destruct (lookup_col_In c (columns df)) as (a & Ha);
    [apply Hin; now left|].
  unfold getitem; rewrite Ha; simpl.
  destruct (IH (select_rows (map (fun z => zabs_lt z t) (zscore a)) df))
    as (out & Hout & Hnames).
  - intros c' Hc'. rewrite column_names_select. apply Hin; now right.
  - exists out. now rewrite Hnames, column_names_select.
Qed.

Lemma outlier_loop_KeyError (t : Q) (c : string) (post : list string) :
  forall pre df,
    (forall c', In c' pre -> In c' (column_names df)) ->
    ~ In c (column_names df) ->
    outlier_loop t (pre ++ c :: post) df = Raise (KeyError c).
Proof.
  intros pre df Hpre Hc. rewrite outlier_loop_app.
  destruct (outlier_loop_total t pre df Hpre) as (mid & -> & Hnames).
  cbn [bind]. rewrite outlier_loop_cons. unfold getitem.
  destruct (lookup_col c (columns mid)) as [a|] eqn:E; [|reflexivity].
  exfalso. apply Hc. rewrite <- Hnames.
  apply lookup_col_Some_In in E. unfold column_names.
  change c with (fst (c, a)). now apply in_map.
Qed.

(** X2: when a checked column is not a column of the table, and every
    column checked before it is, [remove_outliers] raises the [KeyError] of
    that name; this also holds for a table without rows. *)
Theorem remove_outliers_missing_column :
  forall config df cols pre c post,
    checked_columns df cols = pre ++ c :: post ->
    (forall c', In c' pre -> In c' (column_names df)) ->
    ~ In c (column_names df) ->
    remove_outliers config df cols = Raise (KeyError c).
Proof.
  intros config df cols pre c post Hcols Hpre Hc.
  unfold remove_outliers. rewrite Hcols.
  now rewrite outlier_loop_KeyError.
Qed.

Lemma remove_outliers_missing_column_witness :
  remove_outliers config_hourly df_overlap
    (Some ["Voltage"; "Sub_metering_1"; "Global_intensity"]%string)
  = Raise (KeyError "Sub_metering_1").
Proof.
  apply (remove_outliers_missing_column config_hourly df_overlap
           (Some ["Voltage"; "Sub_metering_1"; "Global_intensity"]%string)
           ["Voltage"%string] "Sub_metering_1"%string
           ["Global_intensity"%string]).
  - reflexivity.
  - simpl. intros c' [<-|[]]. now left.
  - simpl. intuition discriminate.
Defined.

(** X3: on a table without rows whose checked columns all exist,
    [remove_outliers] raises [ZeroDivisionError]: the report line divides by
    the number of input rows. *)
Theorem remove_outliers_empty_table :
  forall config df cols,
    len df = 0%nat ->
    (forall c, In c (checked_columns df cols) -> In c (column_names df)) ->
    remove_outliers config df cols = Raise ZeroDivisionError.
Proof.
  intros config df cols Hlen Hin. unfold remove_outliers.
  destruct (outlier_loop_total (outlier_threshold config) _ df Hin)
    as (out & -> & _).
  cbn [bind]. now rewrite Hlen.
Qed.

Lemma remove_outliers_empty_table_witness :
  remove_outliers config_hourly
    (mkDF [] [("Voltage"%string, []); ("Global_intensity"%string, [])]) None
  = Raise ZeroDivisionError.
Proof.
  apply remove_outliers_empty_table.
  - reflexivity.
  - intros c H; exact H.
Defined.

(** ** Masks that keep nothing *)

Lemma all_present_None (a : list cell) : In None a -> all_present a = None.
Proof.
  induction a as [|[x|] a IH]; simpl; [tauto | | reflexivity].
  intros [H|H]; [discriminate|]. now rewrite IH.
Qed.

Lemma zmask_nan (t : Q) (a : list cell) :
  In None a -> zmask t a = map (fun _ => false) a.
Proof.
  intros H. unfold zmask, zscore. rewrite (all_present_None a H).
  now rewrite map_map.
Qed.

Lemma zabs_lt_nonpositive (t : Q) (z : zval) : t <= 0 -> zabs_lt z t = false.
Proof.
  intros Ht. destruct z as [|d v]; [reflexivity|]. simpl.
  assert (Qltb 0 t = false) as ->; [|reflexivity].
  unfold Qltb. apply negb_false_iff. now apply Qle_bool_iff.
Qed.

Lemma zmask_nonpositive (t : Q) (a : list cell) :
  t <= 0 -> zmask t a = map (fun _ => false) a.
Proof.
  intros Ht. unfold zmask, zscore.
  destruct (all_present a) as [xs|] eqn:E.
  - rewrite (all_present_map a xs E), !map_map.
    apply map_ext. intros x. now apply zabs_lt_nonpositive.
  - now rewrite map_map.
Qed.

(** When the mask of the first checked column keeps nothing, nothing is
    returned. *)
Lemma remove_outliers_first_mask_empty (config : Config) (df : DataFrame)
  (cols : option (list string)) (c : string) (rest : list string)
  (a : list cell) :
  len df <> 0%nat ->
  checked_columns df cols = c :: rest ->
  (forall c', In c' (c :: rest) -> In c' (column_names df)) ->
  getitem df c = Ok a ->
  zmask (outlier_threshold config) a = map (fun _ => false) a ->
  exists out,
    remove_outliers config df cols = Ok out /\ no_rows out /\
    column_names out = column_names df.
Proof.
  intros Hlen Hcols Hin Ha Hmask.
  destruct (outlier_loop_no_rows (outlier_threshold config) rest
              (select_rows (map (fun _ => false) a) df))
    as (out & Hrun & Hno & Hnames).
  - intros c' Hc'. rewrite column_names_select. apply Hin. now right.
  - apply select_all_false_no_rows.
  - exists out. split; [|split; [exact Hno|]].
    + apply remove_outliers_Ok. split; [|exact Hlen].
      rewrite Hcols, outlier_loop_cons, Ha. cbn [bind]. now rewrite Hmask.
    + now rewrite Hnames, column_names_select.
Qed.

(** X4: a NaN anywhere in the first checked column makes every z-score of
    that column NaN, so [remove_outliers] returns the table with no rows
    left. *)
Theorem remove_outliers_nan_first_column :
  forall config df cols c rest a,
    len df <> 0%nat ->
    checked_columns df cols = c :: rest ->
    (forall c', In c' (c :: rest) -> In c' (column_names df)) ->
    getitem df c = Ok a ->
    In None a ->
    exists out,
      remove_outliers config df cols = Ok out /\ no_rows out /\
      column_names out = column_names df.
Proof.
  intros config df cols c rest a Hlen Hcols Hin Ha Hnan.
  apply (remove_outliers_first_mask_empty config df cols c rest a); auto.
  now apply zmask_nan.
Qed.

(** X5: with a threshold that is zero or negative and at least one checked
    column, [remove_outliers] returns the table with no rows left: no
    absolute score is below such a threshold. *)
Theorem remove_outliers_nonpositive_threshold :
  forall config df cols c rest,
    outlier_threshold config <= 0 ->
    len df <> 0%nat ->
    checked_columns df cols = c :: rest ->
    (forall c', In c' (c :: rest) -> In c' (column_names df)) ->
    exists out,
      remove_outliers config df cols = Ok out /\ no_rows out /\
      column_names out = column_names df.
Proof.
  intros config df cols c rest Ht Hlen Hcols Hin.
  destruct (lookup_col_In c (columns df)) as (a & Ha);
    [apply Hin; now left|].
  apply (remove_outliers_first_mask_empty config df cols c rest a); auto.
  - now apply getitem_Ok.
  - now apply zmask_nonpositive.
Qed.

Lemma remove_outliers_nan_first_column_witness :
  exists out,
    remove_outliers config_hourly df_voltage_nan None = Ok out /\
    no_rows out /\
    column_names out = column_names df_voltage_nan.
Proof.
  apply (remove_outliers_nan_first_column config_hourly df_voltage_nan None
           "Voltage"%string ["Global_intensity"%string]
           [Some 230; None; Some 231]).
  - discriminate.
  - reflexivity.
  - intros c' H; exact H.
  - reflexivity.
  - simpl. tauto.
Defined.

Lemma remove_outliers_nonpositive_threshold_witness :
  exists out,
    remove_outliers config_threshold_zero df_overlap None = Ok out /\
    no_rows out /\
    column_names out = column_names df_overlap.
Proof.
  apply (remove_outliers_nonpositive_threshold config_threshold_zero
           df_overlap None "Voltage"%string ["Global_intensity"%string]).
  - discriminate.
  - discriminate.
  - reflexivity.
  - intros c' H; exact H.
Defined.

(** ** A threshold above one keeps a row *)














(** * Further properties of missing-value handling *)

Lemma pad_limit_present (lim : nat) :
  forall l val k,
    Forall (fun y => notna y = true) l -> pad_limit lim val k l = l.
Proof.
  induction l as [|[v|] l IH]; intros val k H; simpl.
  - reflexivity.
  - inversion H; subst. f_equal. now apply IH.
  - inversion H; subst. discriminate.
Qed.

Lemma pad_limit_all_none (lim : nat) :
  forall l k, Forall (fun y => y = None) l -> pad_limit lim None k l = l.
Proof.
  induction l as [|y l IH]; intros k H; simpl; [reflexivity|].
  inversion H; subst. destruct (Nat.ltb k lim); f_equal; now apply IH.
Qed.

Lemma next_valid_all_none (l : list cell) :
  Forall (fun y => y = None) l -> next_valid l = None.
Proof.
  induction 1 as [|y l -> _ IH]; simpl; [reflexivity | now rewrite IH].
Qed.

Lemma interp_linear_all_none (l : list cell) :
  Forall (fun y => y = None) l -> interp_linear None l = l.
Proof.
  induction 1 as [|y l -> Hl IH]; simpl; [reflexivity|].
  rewrite (next_valid_all_none l Hl). now f_equal.
Qed.

Lemma interp_linear_present :
  forall l prev,
    Forall (fun y => notna y = true) l -> interp_linear prev l = l.
Proof.
  induction l as [|[v|] l IH]; intros prev H; simpl.
  - reflexivity.
  - inversion H; subst. f_equal. now apply IH.
  - inversion H; subst. discriminate.
Qed.

Lemma Forall2_fills_In (l l' : list cell) (v : Q) :
  Forall2 fills l l' -> In (Some v) l -> In (Some v) l'.
Proof.
  induction 1 as [|x y l l' Hxy _ IH]; simpl; [tauto|].
  intros [->|Hin]; [left; now apply Hxy | right; auto].
Qed.

Lemma pad_1d_fill_ok (lim : nat) : fill_ok (pad_1d lim).
Proof.
  split; intros a; unfold pad_1d.
  - apply pad_limit_fills.
  - apply pad_limit_present.
  - apply pad_limit_all_none.
Qed.

Lemma backfill_1d_fill_ok (lim : nat) : fill_ok (backfill_1d lim).
Proof.
  split; intros a.
  - apply backfill_fills.
  - intros H. unfold backfill_1d, pad_1d.
    rewrite pad_limit_present; [apply rev_involutive|].
    apply Forall_forall. intros y Hy. apply in_rev in Hy.
    rewrite Forall_forall in H. auto.
  - intros H. unfold backfill_1d, pad_1d.
    rewrite pad_limit_all_none; [apply rev_involutive|].
    apply Forall_forall. intros y Hy. apply in_rev in Hy.
    rewrite Forall_forall in H. auto.
Qed.

(** A call returns exactly when the fill method is supported, and then it
    went through one of the two fills. *)
Lemma handle_missing_values_supported (config : Config) (df : DataFrame) :
  fill_method config <> Unsupported ->
  exists f,
    fill_ok f /\
    handle_missing_values config df
    = Ok (dropna (interpolate (map_columns f df))).
Proof.
  unfold handle_missing_values, fillna.
  destruct (fill_method config); simpl; intros H.
  - exists (pad_1d 6). split; [apply pad_1d_fill_ok | reflexivity].
  - exists (backfill_1d 6). split; [apply backfill_1d_fill_ok | reflexivity].
  - congruence.
Qed.

Lemma handle_missing_values_inv (config : Config) (df out : DataFrame) :
  handle_missing_values config df = Ok out ->
  fill_method config <> Unsupported /\
  exists f, fill_ok f /\ out = dropna (interpolate (map_columns f df)).
Proof.
  intros H.
  assert (fill_method config <> Unsupported) as Hm.
  { intros E. unfold handle_missing_values, fillna in H.
    rewrite E in H. discriminate. }
  split; [exact Hm|].
  destruct (handle_missing_values_supported config df Hm) as (f & Hf & E).
  exists f. split; [exact Hf | congruence].
Qed.

Lemma map_columns_wf (f : list cell -> list cell) (df : DataFrame) :
  (forall a, length (f a) = length a) -> wf df -> wf (map_columns f df).
Proof.
  intros Hf [Hlen Hnd]. split.
  - simpl. apply Forall_map. eapply Forall_impl; [|exact Hlen].
    simpl. intros c Hc. now rewrite Hf.
  - now rewrite column_names_map_columns.
Qed.

Lemma map_columns_same (f : list cell -> list cell) (df : DataFrame) :
  (forall c, In c (columns df) -> f (snd c) = snd c) ->
  map_columns f df = df.
Proof.
  intros H. destruct df as [idx cols]. unfold map_columns; simpl in *.
  f_equal. rewrite <- (map_id cols) at 2. apply map_ext_in.
  intros [n v] Hin. simpl. f_equal. exact (H _ Hin).
Qed.

Lemma fill_ok_length (f : list cell -> list cell) (a : list cell) :
  fill_ok f -> length (f a) = length a.
Proof.
  intros Hf. symmetry. eapply Forall2_length, (fill_fills f Hf).
Qed.

Lemma filled_wf (f : list cell -> list cell) (df : DataFrame) :
  fill_ok f -> wf df -> wf (interpolate (map_columns f df)).
Proof.
  intros Hf Hwf. unfold interpolate.
  apply map_columns_wf; [intros a; apply interp_linear_length|].
  apply map_columns_wf; [intros a; now apply fill_ok_length | exact Hwf].
Qed.

Lemma select_rows_true_seq (df : DataFrame) :
  wf df -> select_rows (map (fun _ => true) (seq 0 (len df))) df = df.
Proof.
  intros [Hlen _]. destruct df as [idx cols]. unfold select_rows, len.
  simpl in *. f_equal.
  - apply take_mask_all_true. now rewrite length_seq.
  - rewrite <- (map_id cols) at 2. apply map_ext_in. intros [n v] Hin.
    rewrite Forall_forall in Hlen. specialize (Hlen _ Hin). simpl in *.
    rewrite take_mask_all_true; [reflexivity | now rewrite length_seq].
Qed.

(** On a rectangular table without missing entries [dropna] drops nothing. *)
Lemma dropna_complete (df : DataFrame) :
  wf df -> no_missing df -> dropna df = df.
Proof.
  intros Hwf Hno. unfold dropna, dropna_mask.
  rewrite (map_ext_in _ (fun _ => true)); [now apply select_rows_true_seq|].
  intros i Hi. apply in_seq in Hi. apply row_notna_true.
  intros c Hc. destruct Hwf as [Hlen _]. unfold no_missing in Hno.
  rewrite Forall_forall in Hlen, Hno. specialize (Hlen c Hc).
  specialize (Hno c Hc). unfold len in Hi.
  destruct (nth_error (snd c) i) as [y|] eqn:E.
  - rewrite Forall_forall in Hno. apply nth_error_In in E.
    specialize (Hno y E). destruct y; [eauto | discriminate].
  - apply nth_error_None in E. lia.
Qed.

Lemma steps_complete (f : list cell -> list cell) (df : DataFrame) :
  fill_ok f -> wf df -> no_missing df ->
  dropna (interpolate (map_columns f df)) = df.
Proof.
  intros Hf Hwf Hno.
  assert (map_columns f df = df) as ->.
  { apply map_columns_same. intros c Hc. apply (fill_present f Hf).
    unfold no_missing in Hno. rewrite Forall_forall in Hno. auto. }
  assert (interpolate df = df) as ->.
  { apply map_columns_same. intros c Hc. apply interp_linear_present.
    unfold no_missing in Hno. rewrite Forall_forall in Hno. auto. }
  now apply dropna_complete.
Qed.

(** X7: a rectangular table without missing entries comes back from
    [handle_missing_values] unchanged, under forward and backward fill. *)
Theorem handle_missing_values_complete_unchanged :
  forall config df,
    fill_method config <> Unsupported ->
    wf df ->
    no_missing df ->
    handle_missing_values config df = Ok df.
Proof.
  intros config df Hm Hwf Hno.
  destruct (handle_missing_values_supported config df Hm) as (f & Hf & ->).
  now rewrite steps_complete.
Qed.

Ltac solve_no_missing := repeat constructor.

Lemma handle_missing_values_complete_unchanged_witness :
  handle_missing_values config_hourly df_gap_filled = Ok df_gap_filled.
Proof.
  apply handle_missing_values_complete_unchanged.
  - discriminate.
  - solve_wf.
  - solve_no_missing.
Defined.

(** X8: [handle_missing_values] is idempotent on rectangular tables: what it
    returns, it returns unchanged when applied again. *)
Theorem handle_missing_values_idempotent :
  forall config df out,
    wf df ->
    handle_missing_values config df = Ok out ->
    handle_missing_values config out = Ok out.
Proof.
  intros config df out Hwf H.
  apply handle_missing_values_inv in H as (Hm & f & Hf & ->).
  destruct (handle_missing_values_supported
              config (dropna (interpolate (map_columns f df))) Hm)
    as (g & Hg & ->).
  f_equal. apply steps_complete; [exact Hg | | apply dropna_no_missing].
  apply select_rows_wf. now apply filled_wf.
Qed.

Lemma handle_missing_values_idempotent_witness :
  handle_missing_values config_hourly df_gap_filled = Ok df_gap_filled.
Proof.
  apply (handle_missing_values_idempotent config_hourly df_gap).
  - solve_wf.
  - vm_compute. reflexivity.
Defined.

(** X9: [handle_missing_values] keeps rectangular tables rectangular and
    their column names distinct. *)
Theorem handle_missing_values_wf :
  forall config df out,
    wf df ->
    handle_missing_values config df = Ok out ->
    wf out.
Proof.
  intros config df out Hwf H.
  apply handle_missing_values_inv in H as (_ & f & Hf & ->).
  apply select_rows_wf. now apply filled_wf.
Qed.

Lemma handle_missing_values_wf_witness : wf df_gap_filled.
Proof.
  apply (handle_missing_values_wf config_hourly df_gap).
  - solve_wf.
  - vm_compute. reflexivity.
Defined.

Lemma steps_keep_rows (f : list cell -> list cell) (df : DataFrame) :
  fill_ok f -> wf df -> every_column_has_value df ->
  dropna (interpolate (map_columns f df)) = interpolate (map_columns f df).
Proof.
  intros Hf Hwf Hval. apply dropna_complete; [now apply filled_wf|].
  unfold no_missing, interpolate, map_columns; simpl.
  rewrite map_map. apply Forall_map. simpl.
  eapply Forall_impl; [|exact Hval]. simpl. intros c (v & Hv).
  apply interp_linear_closes. right.
  apply next_valid_In with (v := v).
  eapply Forall2_fills_In; [apply (fill_fills f Hf) | exact Hv].
Qed.

(** X10: when every column of a rectangular table holds at least one value,
    [handle_missing_values] drops no row: the index comes back unchanged and
    every gap is closed by the fill and the interpolation. *)
Theorem handle_missing_values_keeps_rows :
  forall config df,
    fill_method config <> Unsupported ->
    wf df ->
    every_column_has_value df ->
    exists out,
      handle_missing_values config df = Ok out /\
      index out = index df /\
      no_missing out.
Proof.
  intros config df Hm Hwf Hval.
  destruct (handle_missing_values_supported config df Hm) as (f & Hf & ->).
  eexists. split; [reflexivity|]. split.
  - now rewrite steps_keep_rows.
  - apply dropna_no_missing.
Qed.

Lemma handle_missing_values_keeps_rows_witness :
  exists out,
    handle_missing_values config_hourly df_gap = Ok out /\
    index out = index df_gap /\
    no_missing out.
Proof.
  apply handle_missing_values_keeps_rows.
  - discriminate.
  - solve_wf.
  - repeat constructor; simpl; eexists; left; reflexivity.
Defined.

Lemma dropna_mask_all_false (df : DataFrame) (c : string * list cell) :
  In c (columns df) ->
  Forall (fun y => y = None) (snd c) ->
  dropna_mask df = map (fun _ => false) (seq 0 (len df)).
Proof.
  intros Hc Hnone. unfold dropna_mask. apply map_ext. intros i.
  destruct (row_notna (columns df) i) eqn:E; [|reflexivity].
  exfalso. rewrite row_notna_true in E.
  destruct (E c Hc) as (v & Hv). apply nth_error_In in Hv.
  rewrite Forall_forall in Hnone. specialize (Hnone _ Hv). discriminate.
Qed.

Lemma steps_all_missing (f : list cell -> list cell) (df : DataFrame)
  (c : string * list cell) :
  fill_ok f ->
  In c (columns df) ->
  Forall (fun y => y = None) (snd c) ->
  no_rows (dropna (interpolate (map_columns f df))).
Proof.
  intros Hf Hc Hnone. unfold dropna.
  rewrite (dropna_mask_all_false _ (fst c, snd c)).
  - apply select_all_false_no_rows.
  - unfold interpolate, map_columns; simpl. rewrite map_map. simpl.
    apply in_map_iff. exists c. split; [|exact Hc]. f_equal.
    rewrite (fill_none f Hf _ Hnone). now apply interp_linear_all_none.
  - exact Hnone.
Qed.

(** X11: when one column holds no value at all, [handle_missing_values]
    returns the table with no rows left: neither the fill nor the
    interpolation has a value to take, and every row is dropped. *)
Theorem handle_missing_values_all_missing_column :
  forall config df c,
    fill_method config <> Unsupported ->
    In c (columns df) ->
    Forall (fun y => y = None) (snd c) ->
    exists out,
      handle_missing_values config df = Ok out /\
      no_rows out /\
      column_names out = column_names df.
Proof.
  intros config df c Hm Hc Hnone.
  destruct (handle_missing_values_supported config df Hm) as (f & Hf & ->).
  eexists. split; [reflexivity|]. split.
  - now apply (steps_all_missing f df c).
  - unfold dropna, interpolate.
    now rewrite column_names_select, !column_names_map_columns.
Qed.

Lemma handle_missing_values_all_missing_column_witness :
  exists out,
    handle_missing_values config_hourly df_no_voltage = Ok out /\
    no_rows out /\
    column_names out = column_names df_no_voltage.
Proof.
  apply (handle_missing_values_all_missing_column config_hourly df_no_voltage
           ("Voltage"%string, [None; None; None])).
  - discriminate.
  - left. reflexivity.
  - repeat constructor.
Defined.

(** * Further properties of the aggregation *)

(** What [aggregate_data] returns, entry by entry of the dictionary. *)
Lemma aggregate_data_inv (config : Config) (df out : DataFrame) :
  aggregate_data config df = Ok out ->
  let w := Z.pos (aggregation_level config) in
  index out = bin_labels w (index df) /\
  column_names out = map fst agg_spec /\
  forall name f,
    In (name, f) agg_spec ->
    exists a,
      getitem df name = Ok a /\
      getitem out name
      = Ok (map (apply_agg f) (resample_column w (index df) a)).
Proof.
  unfold aggregate_data, resample_agg.
  set (w := Z.pos (aggregation_level config)).
  intros H. apply bind_Ok in H as (cols & Hcols & H).
  injection H as <-. cbn [index columns]. split; [reflexivity|]. split.
  - unfold column_names. cbn [columns]. now apply agg_columns_names in Hcols.
  - intros name f Hin.
    pose proof (agg_columns_result w df agg_spec) as Hres.
    rewrite Hcols in Hres.
    destruct (agg_columns_lookup
                (fun sp v =>
                   exists a,
                     lookup_col (fst sp) (columns df) = Some a /\
                     v = map (apply_agg (snd sp))
                             (resample_column w (index df) a))
                agg_spec cols Hres agg_spec_NoDup (name, f) Hin)
      as (col & Hcol & a & Ha & ->).
    simpl in Hcol, Ha. exists a. split; [now apply getitem_Ok|].
    unfold getitem. simpl. now rewrite Hcol.
Qed.

Lemma resample_column_length (w : Z) (idx : list Z) (a : list cell) :
  (0 < w)%Z ->
  length (resample_column w idx a) = length (bin_labels w idx).
Proof.
  intros Hw. rewrite (resample_column_buckets w idx a Hw). apply length_map.
Qed.

Lemma aggregate_data_columns_length (config : Config) (df out : DataFrame) :
  aggregate_data config df = Ok out ->
  Forall (fun c => length (snd c) = length (index out)) (columns out).
Proof.
  unfold aggregate_data, resample_agg.
  set (w := Z.pos (aggregation_level config)).
  assert (0 < w)%Z as Hw by (unfold w; lia).
  intros H. apply bind_Ok in H as (cols & Hcols & H).
  injection H as <-. cbn [index columns].
  pose proof (agg_columns_result w df agg_spec) as Hres.
  rewrite Hcols in Hres. clear Hcols.
  induction Hres as [|sp c spec cols (_ & a & _ & Hc) _ IH]; constructor.
  - rewrite Hc, length_map. now apply resample_column_length.
  - exact IH.
Qed.

(** X12: the table returned by [aggregate_data] is rectangular: each of its
    seven columns has one entry per period of the index, and the names are
    distinct. *)
Theorem aggregate_data_wf :
  forall config df out,
    aggregate_data config df = Ok out -> wf out.
Proof.
  intros config df out H. split.
  - now apply (aggregate_data_columns_length config df).
  - apply aggregate_data_inv in H as (_ & -> & _). apply agg_spec_NoDup.
Qed.

Lemma aggregate_data_wf_witness :
  exists out, aggregate_data config_hourly df_one_hour = Ok out /\ wf out.
Proof.
  eexists. split; [vm_compute; reflexivity|].
  apply (aggregate_data_wf config_hourly df_one_hour).
  vm_compute. reflexivity.
Defined.

(** ** Periods without rows *)

Lemma resample_column_nth_exact (w : Z) (idx : list Z) (a : list cell)
  (f : aggfunc) (k : nat) (b : Z) :
  (0 < w)%Z ->
  nth_error (bin_labels w idx) k = Some b ->
  nth_error (map (apply_agg f) (resample_column w idx a)) k
  = Some (apply_agg f
            (map snd (filter (in_bucket b w) (sort_by_key (combine idx a))))).
Proof.
  intros Hw Hb. rewrite (resample_column_buckets w idx a Hw).
  now rewrite map_map, nth_error_map, Hb.
Qed.

Lemma empty_period_group (w b : Z) (idx : list Z) (a : list cell) :
  (forall t, In t idx -> ~ (b <= t < b + w)%Z) ->
  filter (in_bucket b w) (sort_by_key (combine idx a)) = [].
Proof.
  intros Hno. apply filter_all_false.
  eapply Permutation_Forall; [apply sort_by_key_perm|].
  apply Forall_forall. intros [t x] Hin. apply in_combine_l in Hin.
  specialize (Hno t Hin). unfold in_bucket. simpl.
  destruct (Z.leb_spec b t), (Z.ltb_spec t (b + w)); simpl; auto. lia.
Qed.

(** X13: in a period of the returned index into which no input timestamp
    falls, the four mean columns hold NaN and the three sub-metering columns
    hold 0. *)
Theorem aggregate_data_empty_period :
  forall config df out k b,
    aggregate_data config df = Ok out ->
    nth_error (index out) k = Some b ->
    (forall t, In t (index df) ->
               ~ (b <= t < b + Z.pos (aggregation_level config))%Z) ->
    (forall name,
        In name ["Global_active_power"; "Global_reactive_power";
                 "Voltage"; "Global_intensity"]%string ->
        exists col, getitem out name = Ok col /\ nth_error col k = Some None) /\
    (forall name,
        In name ["Sub_metering_1"; "Sub_metering_2";
                 "Sub_metering_3"]%string ->
        exists col,
          getitem out name = Ok col /\ nth_error col k = Some (Some 0)).
Proof.
  intros config df out k b H Hb Hno.
  set (w := Z.pos (aggregation_level config)) in *.
  assert (0 < w)%Z as Hw by (unfold w; lia).
  apply aggregate_data_inv in H as (Hidx & _ & Hcols). fold w in Hidx, Hcols.
  rewrite Hidx in Hb.
  split; intros name Hin.
  - destruct (Hcols name AggMean) as (a & _ & Hout).
    { simpl in Hin. simpl. intuition (subst; auto). }
    eexists. split; [exact Hout|].
    rewrite (resample_column_nth_exact w _ a AggMean k b Hw Hb).
    now rewrite empty_period_group.
  - destruct (Hcols name AggSum) as (a & _ & Hout).
    { simpl in Hin. simpl. intuition (subst; auto 10). }
    eexists. split; [exact Hout|].
    rewrite (resample_column_nth_exact w _ a AggSum k b Hw Hb).
    now rewrite empty_period_group.
Qed.

Lemma aggregate_data_empty_period_witness :
  exists out,
    aggregate_data config_hourly df_hour_gap = Ok out /\
    (forall name,
        In name ["Global_active_power"; "Global_reactive_power";
                 "Voltage"; "Global_intensity"]%string ->
        exists col,
          getitem out name = Ok col /\ nth_error col 1 = Some None) /\
    (forall name,
        In name ["Sub_metering_1"; "Sub_metering_2";
                 "Sub_metering_3"]%string ->
        exists col,
          getitem out name = Ok col /\ nth_error col 1 = Some (Some 0)).
Proof.
  eexists. split; [vm_compute; reflexivity|].
  apply (aggregate_data_empty_period config_hourly df_hour_gap _ 1%nat
           1167613200000000000%Z).
  - vm_compute. reflexivity.
  - reflexivity.
  - simpl. unfold hour. intros t [<-|[<-|[]]]; lia.
Defined.

(** X14: [aggregate_data] returns no rows for a table without rows and at
    least one row for any other table. *)
Theorem aggregate_data_rows :
  forall config df out,
    aggregate_data config df = Ok out ->
    (len df = 0%nat -> no_rows out) /\
    (len df <> 0%nat -> len out <> 0%nat).
Proof.
  intros config df out H.
  pose proof (aggregate_data_columns_length config df out H) as Hlen.
  apply aggregate_data_inv in H as (Hidx & _ & _).
  unfold len. split.
  - intros Hz. apply length_zero_iff_nil in Hz.
    rewrite Hz in Hidx. cbn in Hidx. split; [exact Hidx|].
    eapply Forall_impl; [|exact Hlen]. simpl. intros c Hc.
    rewrite Hidx in Hc. now apply length_zero_iff_nil.
  - intros Hnz. rewrite Hidx.
    destruct (index df) as [|t ts]; [exfalso; now apply Hnz|].
    destruct (binner_periods (Z.pos (aggregation_level config)) t ts)
      as (b0 & n & Hb & _); [lia|].
    unfold bin_labels. rewrite Hb, removelast_periods. discriminate.
Qed.

Lemma aggregate_data_rows_witness :
  exists out,
    aggregate_data config_hourly df_hour_gap = Ok out /\
    (len df_hour_gap = 0%nat -> no_rows out) /\
    (len df_hour_gap <> 0%nat -> len out <> 0%nat).
Proof.
  eexists. split; [vm_compute; reflexivity|].
  apply (aggregate_data_rows config_hourly df_hour_gap).
  vm_compute. reflexivity.
Defined.

(** ** The sum columns keep the total *)

Lemma bucket_sum_cons (b w : Z) (p : Z * cell) (l : list (Z * cell)) :
  bucket_sum b w (p :: l)
  == (if in_bucket b w p then val_of (snd p) else 0) + bucket_sum b w l.
Proof.
  unfold bucket_sum. simpl.
  destruct (in_bucket b w p); [|ring].
  destruct p as [t [x|]]; simpl; ring.
Qed.

Lemma sumQ_map_add {A : Type} (f g : A -> Q) (L : list A) :
  sumQ (map (fun b => f b + g b) L) == sumQ (map f L) + sumQ (map g L).
Proof.
  induction L as [|b L IH]; simpl; [ring|]. rewrite IH. ring.
Qed.

Lemma sumQ_map_ext {A : Type} (f g : A -> Q) (L : list A) :
  (forall b, f b == g b) -> sumQ (map f L) == sumQ (map g L).
Proof.
  intros H. induction L as [|b L IH]; simpl; [reflexivity|].
  now rewrite IH, H.
Qed.

(** A timestamp lies in exactly one period of the grid that spans it. *)
Lemma sumQ_one_period (b0 w : Z) (p : Z * cell) (v : Q) :
  (0 < w)%Z ->
  forall n s,
    sumQ (map (fun b => if in_bucket b w p then v else 0) (periods b0 w s n))
    == if ((b0 + Z.of_nat s * w <=? fst p)
           && (fst p <? b0 + Z.of_nat (s + n) * w))%Z
       then v else 0.
Proof.
  intros Hw. unfold periods.
  induction n as [|n IH]; intros s.
  - simpl. rewrite Nat.add_0_r.
    destruct (Z.leb_spec (b0 + Z.of_nat s * w) (fst p)),
             (Z.ltb_spec (fst p) (b0 + Z.of_nat s * w));
      simpl; try reflexivity. lia.
  - cbn [seq map sumQ fold_right].
    change (fold_right Qplus 0 ?l) with (sumQ l).
    rewrite IH. unfold in_bucket.
    replace (S s + n)%nat with (s + S n)%nat by lia.
    destruct (Z.leb_spec (b0 + Z.of_nat s * w) (fst p)),
             (Z.ltb_spec (fst p) (b0 + Z.of_nat s * w + w)),
             (Z.leb_spec (b0 + Z.of_nat (S s) * w) (fst p)),
             (Z.ltb_spec (fst p) (b0 + Z.of_nat (s + S n) * w));
      simpl; try ring; exfalso; nia.
Qed.

Lemma periods_total (b0 w : Z) (n : nat) :
  (0 < w)%Z ->
  forall l : list (Z * cell),
    Forall (fun p => (b0 <= fst p < b0 + Z.of_nat n * w)%Z) l ->
    sumQ (map (fun b => bucket_sum b w l) (periods b0 w 0 n))
    == sumQ (present (map snd l)).
Proof.
  intros Hw. induction 1 as [|p l Hp _ IH].
  - unfold bucket_sum. simpl.
    induction (periods b0 w 0 n) as [|b L IHL]; simpl; [reflexivity|].
    rewrite IHL. ring.
  - rewrite (sumQ_map_ext _
               (fun b => (if in_bucket b w p then val_of (snd p) else 0)
                         + bucket_sum b w l));
      [|intros b; apply bucket_sum_cons].
    rewrite sumQ_map_add, IH, (sumQ_one_period b0 w p _ Hw n 0).
    assert (((b0 + Z.of_nat 0 * w <=? fst p)
             && (fst p <? b0 + Z.of_nat (0 + n) * w))%Z = true) as ->.
    { apply andb_true_iff. split; [apply Z.leb_le | apply Z.ltb_lt];
        simpl; lia. }
    destruct p as [t [x|]]; simpl; ring.
Qed.

Lemma map_snd_combine {A B : Type} :
  forall (l : list A) (l' : list B),
    length l = length l' -> map snd (combine l l') = l'.
Proof.
  induction l as [|x l IH]; intros [|y l'] H; simpl in *;
    try reflexivity; try discriminate.
  f_equal. apply IH. now injection H.
Qed.

Lemma present_sum_column (w : Z) (labels : list Z) (l : list (Z * cell)) :
  present (map (apply_agg AggSum)
             (map (fun b => map snd (filter (in_bucket b w) l)) labels))
  = map (fun b => bucket_sum b w l) labels.
Proof.
  induction labels as [|b labels IH]; simpl; [reflexivity|].
  now rewrite IH.
Qed.

(** The sum over all periods of a summed column is the sum of the column. *)
Lemma resample_sum_total (w : Z) (idx : list Z) (a : list cell) :
  (0 < w)%Z ->
  length idx = length a ->
  sumQ (present (map (apply_agg AggSum) (resample_column w idx a)))
  == sumQ (present a).
Proof.
  intros Hw Hlen. rewrite (resample_column_buckets w idx a Hw).
  rewrite present_sum_column.
  destruct (bin_labels_periods w idx Hw) as (b0 & n & -> & _ & Hcov).
  rewrite (periods_total b0 w n Hw).
  - rewrite <- (map_snd_combine idx a Hlen) at 2.
    apply sumQ_perm, present_perm, Permutation_map.
    symmetry. apply sort_by_key_perm.
  - eapply Permutation_Forall; [apply sort_by_key_perm|].
    apply Forall_forall. intros [t x] Hin. simpl.
    apply in_combine_l in Hin.
    rewrite Forall_forall in Hcov. exact (Hcov t Hin).
Qed.

(** X15: on a rectangular table, each sub-metering column of the table
    returned by [aggregate_data] has the same total as the input column:
    summing by period moves readings, it neither loses nor adds any. *)
Theorem aggregate_data_sum_conserved :
  forall config df out name,
    wf df ->
    aggregate_data config df = Ok out ->
    In name ["Sub_metering_1"; "Sub_metering_2"; "Sub_metering_3"]%string ->
    exists a col,
      getitem df name = Ok a /\
      getitem out name = Ok col /\
      sumQ (present col) == sumQ (present a).
Proof.
  intros config df out name [Hlen _] H Hin.
  apply aggregate_data_inv in H as (_ & _ & Hcols).
  destruct (Hcols name AggSum) as (a & Ha & Hout).
  { simpl in Hin. simpl. intuition (subst; auto 10). }
  exists a. eexists. split; [exact Ha|]. split; [exact Hout|].
  apply resample_sum_total; [lia|].
  rewrite Forall_forall in Hlen.
  apply getitem_Ok, lookup_col_Some_In, Hlen in Ha. now symmetry.
Qed.

Lemma aggregate_data_sum_conserved_witness :
  exists a col,
    getitem df_hour_gap "Sub_metering_3" = Ok a /\
    getitem df_hour_gap_hourly "Sub_metering_3" = Ok col /\
    sumQ (present col) == sumQ (present a).
Proof.
  apply (aggregate_data_sum_conserved config_hourly df_hour_gap
           df_hour_gap_hourly "Sub_metering_3"%string).
  - solve_wf.
  - vm_compute. reflexivity.
  - simpl. tauto.
Defined.

(** * Further properties: default columns and the pipeline *)

Lemma lookup_col_NoDup (n : string) (v : list cell) :
  forall cols,
    NoDup (map fst cols) -> In (n, v) cols -> lookup_col n cols = Some v.
Proof.
  induction cols as [|[n0 v0] cols IH]; simpl; intros Hnd Hin; [tauto|].
  inversion Hnd as [|? ? Hnot Hnd']; subst.
  destruct Hin as [[= -> ->]|Hin].
  - now rewrite String.eqb_refl.
  - destruct (String.eqb_spec n n0) as [->|_]; [|auto].
    exfalso. apply Hnot. change n0 with (fst (n0, v)). now apply in_map.
Qed.

(** Every value left in a checked column is present. *)
Lemma outlier_loop_checked_present (t : Q) (c : string) :
  forall cols df out,
    outlier_loop t cols df = Ok out ->
    In c cols ->
    exists b,
      lookup_col c (columns out) = Some b /\
      Forall (fun y => notna y = true) b.
Proof.
  intros cols df out Hrun Hin.
  apply in_split in Hin as (pre & post & ->).
  rewrite outlier_loop_app in Hrun.
  apply bind_Ok in Hrun as (mid & _ & Hrun).
  rewrite outlier_loop_cons in Hrun.
  apply bind_Ok in Hrun as (pop & Hpop & Hrun).
  eapply (outlier_loop_col (fun y => notna y = true)); [exact Hrun| |].
  - rewrite lookup_col_select. apply getitem_Ok in Hpop.
    rewrite Hpop. reflexivity.
  - eapply Forall_impl; [|apply zmask_keeps_within].
    intros y (xs & x & _ & -> & _). reflexivity.
Qed.

Lemma remove_outliers_default_present (config : Config) (df out : DataFrame) :
  wf df ->
  remove_outliers config df None = Ok out ->
  no_missing out.
Proof.
  intros Hwf Hrun.
  apply remove_outliers_Ok in Hrun as [Hrun _]. cbn [checked_columns] in Hrun.
  destruct (outlier_loop_select _ _ _ _ Hwf Hrun) as (mask & _ & Hout).
  assert (wf out) as [_ Hnd] by (subst out; now apply select_rows_wf).
  assert (column_names out = column_names df) as Hnames
      by (subst out; apply column_names_select).
  apply Forall_forall. intros [n v] Hin.
  destruct (outlier_loop_checked_present _ n _ _ _ Hrun) as (b & Hb & Hall).
  - rewrite <- Hnames. unfold column_names.
    change n with (fst (n, v)). now apply in_map.
  - rewrite (lookup_col_NoDup n v _ Hnd Hin) in Hb.
    injection Hb as <-. exact Hall.
Qed.

(** X16: called without a column list on a rectangular table,
    [remove_outliers] returns a table without missing entries: every column
    is checked, and a NaN never passes a check. *)
Theorem remove_outliers_default_no_missing :
  forall config df out,
    wf df ->
    remove_outliers config df None = Ok out ->
    no_missing out.
Proof.
  intros config df out. apply remove_outliers_default_present.
Qed.

Lemma remove_outliers_default_no_missing_witness :
  no_missing
    (select_rows
       [true; true; true; true; true; true; true; true; true; true; false]
       df_overlap).
Proof.
  apply (remove_outliers_default_no_missing config_hourly df_overlap).
  - solve_wf.
  - vm_compute. reflexivity.
Defined.

(** ** The pipeline *)

Lemma handle_missing_values_names (config : Config) (df out : DataFrame) :
  handle_missing_values config df = Ok out ->
  column_names out = column_names df.
Proof.
  intros H. apply handle_missing_values_inv in H as (_ & f & _ & ->).
  unfold dropna, interpolate.
  now rewrite column_names_select, !column_names_map_columns.
Qed.

Lemma aggregate_data_Raise (config : Config) (df : DataFrame) (e : exn) :
  aggregate_data config df = Raise e ->
  exists name,
    e = KeyError name /\ In name (map fst agg_spec) /\
    ~ In name (column_names df).
Proof.
  unfold aggregate_data, resample_agg. intros H.
  pose proof (agg_columns_result (Z.pos (aggregation_level config)) df
                agg_spec) as Hres.
  destruct (agg_columns _ agg_spec df) as [cols|e']; [discriminate|].
  simpl in H. injection H as <-. exact Hres.
Qed.

Lemma aggregate_data_total (config : Config) (df : DataFrame) :
  (forall name, In name (map fst agg_spec) -> In name (column_names df)) ->
  exists out, aggregate_data config df = Ok out.
Proof.
  intros Hin. destruct (aggregate_data config df) as [out|e] eqn:E; [eauto|].
  apply aggregate_data_Raise in E as (name & _ & Hname & Hnot).
  exfalso. apply Hnot, Hin, Hname.
Qed.

Lemma aggregate_data_rectangular (config : Config) (df out : DataFrame) :
  aggregate_data config df = Ok out -> wf out.
Proof.
  intros H. split.
  - now apply (aggregate_data_columns_length config df).
  - apply aggregate_data_inv in H as (_ & -> & _). apply agg_spec_NoDup.
Qed.

Lemma aggregate_data_sorted (config : Config) (df out : DataFrame) :
  aggregate_data config df = Ok out -> StronglySorted Z.lt (index out).
Proof.
  intros H. apply aggregate_data_inv in H as (-> & _).
  destruct (bin_labels_periods (Z.pos (aggregation_level config)) (index df))
    as (b0 & n & -> & _); [lia|].
  apply periods_sorted. lia.
Qed.

Lemma take_mask_sorted (mask : list bool) :
  forall l, StronglySorted Z.lt l -> StronglySorted Z.lt (take_mask mask l).
Proof.
  induction mask as [|b mask IH]; intros l Hl; simpl; [constructor|].
  destruct l as [|x l]; [constructor|].
  inversion Hl as [|? ? Hl' Hx]; subst.
  destruct b; [|auto]. constructor; [auto|].
  now apply take_mask_Forall.
Qed.

(** The three stages of a pipeline run that returns. *)
Lemma preprocess_pipeline_Ok (config : Config) (df out : DataFrame) :
  preprocess_pipeline config df = Ok out <->
  exists cleaned hourly,
    handle_missing_values config df = Ok cleaned /\
    aggregate_data config cleaned = Ok hourly /\
    remove_outliers config hourly None = Ok out.
Proof.
  unfold preprocess_pipeline. split.
  - intros H. apply bind_Ok in H as (d1 & H1 & H).
    apply bind_Ok in H as (d2 & H2 & H).
    apply bind_Ok in H as (d3 & H3 & H). injection H as <-. eauto.
  - intros (d1 & d2 & -> & H2 & H3). cbn [bind].
    rewrite H2. cbn [bind]. rewrite H3. reflexivity.
Qed.

(** X17: a table returned by [preprocess_pipeline] has the seven aggregated
    columns, no missing entry, a strictly increasing index, and is
    rectangular. *)
Theorem preprocess_pipeline_result :
  forall config df out,
    preprocess_pipeline config df = Ok out ->
    column_names out = map fst agg_spec /\
    StronglySorted Z.lt (index out) /\
    no_missing out /\
    wf out.
Proof.
  intros config df out H.
  apply preprocess_pipeline_Ok in H as (d1 & d2 & _ & H2 & H3).
  pose proof (aggregate_data_rectangular _ _ _ H2) as Hwf.
  pose proof (aggregate_data_sorted _ _ _ H2) as Hs.
  pose proof (remove_outliers_default_present _ _ _ Hwf H3) as Hno.
  apply aggregate_data_inv in H2 as (_ & Hnames & _).
  apply remove_outliers_Ok in H3 as [H3 _].
  destruct (outlier_loop_select _ _ _ _ Hwf H3) as (mask & _ & ->).
  repeat split.
  - now rewrite column_names_select.
  - cbn [select_rows index]. now apply take_mask_sorted.
  - exact Hno.
  - apply select_rows_wf. exact Hwf.
  - apply select_rows_wf. exact Hwf.
Qed.


Lemma preprocess_pipeline_result_witness :
  exists out,
    preprocess_pipeline config_hourly df_hour_gap = Ok out /\
    column_names out = map fst agg_spec /\
    StronglySorted Z.lt (index out) /\
    no_missing out /\
    wf out.
Proof.
  eexists. split; [vm_compute; reflexivity|].
  apply (preprocess_pipeline_result config_hourly df_hour_gap).
  vm_compute. reflexivity.
Defined.


Lemma handle_missing_values_empty (config : Config) (df out : DataFrame) :
  len df = 0%nat ->
  handle_missing_values config df = Ok out ->
  len out = 0%nat.
Proof.
  intros Hlen H. apply handle_missing_values_inv in H as (_ & f & _ & ->).
  unfold len in *. apply length_zero_iff_nil in Hlen.
  unfold dropna, select_rows, interpolate, map_columns. cbn [index].
  rewrite Hlen. now rewrite take_mask_nil.
Qed.

(** X19: on a table that has the seven aggregated columns, when the table
    has no rows or one of its columns holds no value at all,
    [preprocess_pipeline] raises [ZeroDivisionError]: the cleaned table has
    no rows, so has the aggregated one, and the report of [remove_outliers]
    divides by their number. *)
Theorem preprocess_pipeline_nothing_left :
  forall config df,
    fill_method config <> Unsupported ->
    (forall name, In name (map fst agg_spec) -> In name (column_names df)) ->
    len df = 0%nat \/
    (exists c, In c (columns df) /\ Forall (fun y => y = None) (snd c)) ->
    preprocess_pipeline config df = Raise ZeroDivisionError.
Proof.
  intros config df Hm Hcols Hnone.
  destruct (handle_missing_values_supported config df Hm) as (f & Hf & H1).
  set (d1 := dropna (interpolate (map_columns f df))) in *.
  assert (len d1 = 0%nat) as Hlen1.
  { destruct Hnone as [Hz|(c & Hc & Hall)].
    - now apply (handle_missing_values_empty config df).
    - destruct (steps_all_missing f df c Hf Hc Hall) as [Hi _].
      fold d1 in Hi. unfold len. now rewrite Hi. }
  destruct (aggregate_data_total config d1) as (d2 & H2).
  { intros name Hname.
    rewrite (handle_missing_values_names _ _ _ H1). auto. }
  pose proof (aggregate_data_inv _ _ _ H2) as (Hidx & _ & _).
  assert (len d2 = 0%nat) as Hlen2.
  { unfold len in *. rewrite Hidx.
    apply length_zero_iff_nil in Hlen1. now rewrite Hlen1. }
  unfold preprocess_pipeline. rewrite H1. cbn [bind]. rewrite H2. cbn [bind].
  unfold remove_outliers.
  destruct (outlier_loop_total (outlier_threshold config)
              (checked_columns d2 None) d2) as (d3 & -> & _);
    [intros c Hc; exact Hc|].
  cbn [bind]. now rewrite Hlen2.
Qed.

Lemma preprocess_pipeline_nothing_left_witness :
  preprocess_pipeline config_hourly df_no_reactive = Raise ZeroDivisionError.
Proof.
  apply preprocess_pipeline_nothing_left.
  - discriminate.
  - simpl. intros name H. exact H.
  - right. exists ("Global_reactive_power"%string, [None; None]). split.
    + right. left. reflexivity.
    + repeat constructor.
Defined.

(** X20: on a rectangular table with the seven aggregated columns, each
    holding at least one value, whose timestamps leave one period between
    the first and the last without a row, [preprocess_pipeline] returns a
    table with no rows: that period is NaN in the mean columns, and a NaN in
    a checked column makes [remove_outliers] drop every row. *)
Theorem preprocess_pipeline_gap_drops_all :
  forall config df k b,
    fill_method config <> Unsupported ->
    wf df ->
    (forall name, In name (map fst agg_spec) -> In name (column_names df)) ->
    every_column_has_value df ->
    nth_error (bin_labels (Z.pos (aggregation_level config)) (index df)) k
    = Some b ->
    (forall t, In t (index df) ->
               ~ (b <= t < b + Z.pos (aggregation_level config))%Z) ->
    exists out,
      preprocess_pipeline config df = Ok out /\ no_rows out.
Proof.
  intros config df k b Hm Hwf Hcols Hval Hb Hno.
  set (w := Z.pos (aggregation_level config)) in *.
  assert (0 < w)%Z as Hw by (unfold w; lia).
  destruct (handle_missing_values_supported config df Hm) as (f & Hf & H1).
  rewrite (steps_keep_rows f df Hf Hwf Hval) in H1.
  set (d1 := interpolate (map_columns f df)) in *.
  assert (index d1 = index df) as Hidx1 by reflexivity.
  destruct (aggregate_data_total config d1) as (d2 & H2).
  { intros name Hname.
    rewrite (handle_missing_values_names _ _ _ H1). auto. }
  pose proof (aggregate_data_inv _ _ _ H2) as (Hidx & Hnames & Hcol).
  fold w in Hidx, Hcol. rewrite Hidx1 in Hidx.
  destruct (Hcol "Global_active_power"%string AggMean) as (a & _ & Hout);
    [now left|].
  rewrite Hidx1 in Hout.
  destruct (remove_outliers_first_mask_empty config d2 None
              "Global_active_power"%string
              (tl (map fst agg_spec))
              (map (apply_agg AggMean) (resample_column w (index df) a)))
    as (out & H3 & Hrows & _).
  - unfold len. rewrite Hidx. intros Hz.
    apply length_zero_iff_nil in Hz. rewrite Hz in Hb.
    destruct k; discriminate.
  - cbn [checked_columns]. rewrite Hnames. reflexivity.
  - intros c Hc. rewrite Hnames. exact Hc.
  - exact Hout.
  - apply zmask_nan.
    apply (nth_error_In _ k).
    rewrite (resample_column_nth_exact w _ a AggMean k b Hw Hb).
    now rewrite empty_period_group.
  - exists out. split; [|exact Hrows].
    apply preprocess_pipeline_Ok. eauto.
Qed.

Lemma preprocess_pipeline_gap_drops_all_witness :
  exists out,
    preprocess_pipeline config_hourly df_hour_gap = Ok out /\ no_rows out.
Proof.
  apply (preprocess_pipeline_gap_drops_all config_hourly df_hour_gap 1%nat
           1167613200000000000%Z).
  - discriminate.
  - solve_wf.
  - simpl. intros name H. exact H.
  - repeat constructor; simpl; eexists; left; reflexivity.
  - reflexivity.
  - simpl. unfold hour. intros t [<-|[<-|[]]]; lia.
Defined.

(** * Further properties of the loader *)

(** X21: when [save_processed_data] succeeds, [load_processed_data] with the
    same file name finds the file, whatever the name and the configured
    directory are, and returns what [read_csv] makes of the text [to_csv]
    wrote: both join the directory and the name in the same way.  (A write
    that succeeds leaves the text at its path.) *)
Theorem save_then_load_reads_back :
  forall (mkdir_parents : filesystem -> string -> result filesystem)
         (to_csv : DataFrame -> string)
         (write_text : filesystem -> string -> string -> result filesystem)
         (read_csv : string -> nat -> bool -> read_error + DataFrame)
         fs fs' config df filename,
    (forall fs0 path text fs1,
        write_text fs0 path text = Ok fs1 -> fs1 path = Some (File text)) ->
    save_processed_data mkdir_parents to_csv write_text fs config df filename
    = Ok fs' ->
    load_processed_data read_csv fs' config filename
    = match read_csv (to_csv df) 0%nat true with
      | inr t => Ok t
      | inl e => Raise (ReadError e)
      end.
Proof.
  intros mkdir_parents to_csv write_text read_csv fs fs' config df filename
         Hwrite Hsave.
  unfold save_processed_data in Hsave.
  apply bind_Ok in Hsave as (fs1 & _ & Hsave).
  apply Hwrite in Hsave.
  unfold load_processed_data, path_exists. now rewrite Hsave.
Qed.

Lemma save_then_load_reads_back_witness :
  load_processed_data (fun _ _ _ => inr df_gap_filled)
    (fun q =>
       if String.eqb q "data/processed/hourly_consumption.csv"
       then Some (File "csv")
       else if String.eqb q "data/processed" then Some Directory
            else no_files q)
    config_hourly "hourly_consumption.csv"
  = Ok df_gap_filled.
Proof.
  apply (save_then_load_reads_back mkdir_always (fun _ => "csv"%string)
           write_always (fun _ _ _ => inr df_gap_filled)
           no_files _ config_hourly df_gap_filled
           "hourly_consumption.csv"%string).
  - unfold write_always. intros fs0 path text fs1 [= <-].
    now rewrite String.eqb_refl.
  - reflexivity.
Defined.

(** * Further edge cases *)

Lemma index_min_In (t : Z) (ts : list Z) : In (index_min t ts) (t :: ts).
Proof.
  unfold index_min. induction ts as [|x ts IH]; simpl; [now left|].
  destruct (Z.min_spec x (fold_right Z.min t ts)) as [[_ ->]|[_ ->]].
  - right. now left.
  - simpl in IH. destruct IH as [IH|IH]; [now left | right; now right].
Qed.

Lemma index_max_In (t : Z) (ts : list Z) : In (index_max t ts) (t :: ts).
Proof.
  unfold index_max. induction ts as [|x ts IH]; simpl; [now left|].
  destruct (Z.max_spec x (fold_right Z.max t ts)) as [[_ ->]|[_ ->]].
  - simpl in IH. destruct IH as [IH|IH]; [now left | right; now right].
  - right. now left.
Qed.

(** The first period holds the earliest timestamp and the last period the
    latest one. *)
Lemma binner_ends (w : Z) (t : Z) (ts : list Z) :
  (0 < w)%Z ->
  exists b0 n,
    binner w (t :: ts) = periods b0 w 0 (S (S n)) /\
    (b0 <= index_min t ts < b0 + w)%Z /\
    (b0 + Z.of_nat n * w <= index_max t ts < b0 + Z.of_nat n * w + w)%Z.
Proof.
  intros Hw. unfold binner.
  set (mn := index_min t ts). set (mx := index_max t ts).
  rewrite (range_edges_grid mn mx w Hw).
  set (o := normalize mn).
  destruct (index_min_le t ts) as [Hmn1 Hmn2].
  destruct (index_max_ge t ts) as [Hmx1 Hmx2].
  fold mn in Hmn1, Hmn2. fold mx in Hmx1, Hmx2.
  assert (mn <= mx)%Z as Hle by lia.
  pose proof (Z.div_le_mono (mn - o) (mx - o) w Hw ltac:(lia)) as Hq.
  set (qn := ((mn - o) / w)%Z) in *. set (qx := ((mx - o) / w)%Z) in *.
  pose proof (Z.mod_pos_bound (mn - o) w Hw) as Hf.
  pose proof (Z.mod_pos_bound (mx - o) w Hw) as Hl.
  pose proof (Z.div_mod (mn - o) w ltac:(lia)) as Ef.
  pose proof (Z.div_mod (mx - o) w ltac:(lia)) as El.
  fold qn in Ef. fold qx in El.
  exists (o + w * qn)%Z, (Z.to_nat (qx - qn)).
  split; [|split].
  - replace (o + w * (qx + 1))%Z
      with (o + w * qn + w * Z.of_nat (S (Z.to_nat (qx - qn))))%Z by nia.
    now apply date_range_periods.
  - lia.
  - rewrite Z2Nat.id by lia. nia.
Qed.

(** X22: on a table with at least one row, the first period of the index
    returned by [aggregate_data] holds the earliest input timestamp and the
    last period the latest one: the index starts and ends with a period that
    has rows. *)
Theorem aggregate_data_end_periods :
  forall config df out,
    aggregate_data config df = Ok out ->
    len df <> 0%nat ->
    let w := Z.pos (aggregation_level config) in
    exists first last,
      hd_error (index out) = Some first /\
      hd_error (rev (index out)) = Some last /\
      (exists t, In t (index df) /\ (first <= t < first + w)%Z /\
                 Forall (fun x => (t <= x)%Z) (index df)) /\
      (exists t, In t (index df) /\ (last <= t < last + w)%Z /\
                 Forall (fun x => (x <= t)%Z) (index df)).
Proof.
  intros config df out H Hlen w.
  apply aggregate_data_inv in H as (-> & _). fold w.
  assert (0 < w)%Z as Hw by (unfold w; lia).
  unfold len in Hlen.
  destruct (index df) as [|t ts]; [exfalso; now apply Hlen|].
  destruct (binner_ends w t ts Hw) as (b0 & n & Hb & Hfirst & Hlast).
  unfold bin_labels. rewrite Hb, removelast_periods.
  exists b0, (b0 + Z.of_nat n * w)%Z.
  split; [|split; [|split]].
  - unfold periods. simpl. f_equal. lia.
  - unfold periods. rewrite seq_S, map_app, rev_app_distr. reflexivity.
  - exists (index_min t ts). split; [apply index_min_In|].
    split; [exact Hfirst|].
    destruct (index_min_le t ts) as [H1 H2]. now constructor.
  - exists (index_max t ts). split; [apply index_max_In|].
    split; [lia|].
    destruct (index_max_ge t ts) as [H1 H2]. now constructor.
Qed.

Lemma aggregate_data_end_periods_witness :
  exists first last,
    hd_error (index df_hour_gap_hourly) = Some first /\
    hd_error (rev (index df_hour_gap_hourly)) = Some last /\
    (exists t, In t (index df_hour_gap) /\
               (first <= t < first + Z.pos hour)%Z /\
               Forall (fun x => (t <= x)%Z) (index df_hour_gap)) /\
    (exists t, In t (index df_hour_gap) /\
               (last <= t < last + Z.pos hour)%Z /\
               Forall (fun x => (x <= t)%Z) (index df_hour_gap)).
Proof.
  apply (aggregate_data_end_periods config_hourly df_hour_gap
           df_hour_gap_hourly).
  - vm_compute. reflexivity.
  - discriminate.
Defined.

(** X23: on a rectangular table with exactly one row and at least one
    checked column, [remove_outliers] returns no row: a single reading has
    variance zero, or is NaN, so its score is NaN. *)
Theorem remove_outliers_single_row :
  forall config df cols c rest,
    wf df ->
    len df = 1%nat ->
    checked_columns df cols = c :: rest ->
    (forall c', In c' (c :: rest) -> In c' (column_names df)) ->
    exists out,
      remove_outliers config df cols = Ok out /\ no_rows out /\
      column_names out = column_names df.
Proof.
  intros config df cols c rest [Hlen _] Hone Hcols Hin.
  destruct (lookup_col_In c (columns df)) as (a & Ha);
    [apply Hin; now left|].
  apply (remove_outliers_first_mask_empty config df cols c rest a); auto.
  - rewrite Hone. discriminate.
  - now apply getitem_Ok.
  - rewrite Forall_forall in Hlen.
    pose proof (Hlen _ (lookup_col_Some_In _ _ _ Ha)) as Hl. simpl in Hl.
    unfold len in Hone. rewrite Hone in Hl.
    destruct a as [|y [|? ?]]; try discriminate.
    destruct y as [v|].
    + apply (zmask_constant _ v). repeat constructor.
      exists v. split; reflexivity.
    + apply zmask_nan. now left.
Qed.

Lemma remove_outliers_single_row_witness :
  exists out,
    remove_outliers config_hourly
      (mkDF [0%Z] [("Voltage"%string, [Some 230])]) None = Ok out /\
    no_rows out /\
    column_names out = ["Voltage"%string].
Proof.
  apply (remove_outliers_single_row config_hourly
           (mkDF [0%Z] [("Voltage"%string, [Some 230])]) None
           "Voltage"%string []).
  - solve_wf.
  - reflexivity.
  - reflexivity.
  - intros c' H; exact H.
Defined.
